(** * Sectoral difference report: a shallow embedding of
    [sectoral_diff_report.py] and the properties of its pipeline.

    Modelling conventions.
    - A pandas [DataFrame] is a header (the list of column names) and a list
      of rows; a row maps column names to cells.  The positional
      [RangeIndex] that [read_csv] and [reset_index] produce is the position
      in the list.  Reading a column that the header does not have raises
      [KeyError].
    - Text cells are [string]s (byte strings; splitting on the ASCII colon
      and comparing bytewise agree with Python on UTF-8 text).  A text cell
      always holds a string: the empty cell of a CSV file, which pandas reads
      as a missing value, is outside the model.
    - A float64 cell that holds data is an exact rational, or [None] for the
      missing value NaN: rounding, signed zeros and infinite data are not
      modelled, and the sum of a column is the exact sum (it neither rounds
      nor overflows, and an integer column does not wrap around).  The result
      of a subtraction or a division is a [float64], which adds the two
      infinities and not-a-number: a result beyond the range of float64 is
      an infinity.  What depends on the order of a floating-point sum is
      stated for any sum, and shown on the binary64 numbers of the machine.
    - The column [Edgar_Values] carries its dtype: a column read from a file
      without data rows is a column of Python objects, on which a division
      by 0 raises.
    - pandas reductions ([sum]) skip missing values, [groupby] sorts its
      keys, a left [merge] keeps the order of the left table.
    - Exceptions are the [Err] results of the [result] monad.  The stages
      that touch files or print run in the monad [IO] over a [world] of files
      and standard output; the CSV reader and writer of pandas are the
      operations of the class [PandasIO].
    - The stages that assign to a frame in place are given a second time on
      a store of objects with references ([Mem]), where copies and aliases
      can be told apart, and are related to the stages on tables. *)

From Stdlib Require Import String Ascii ZArith QArith Qcanon DecimalString.
From Stdlib Require Import PrimFloat.
From stdpp Require Import gmap strings list fin_maps sorting numbers.

Open Scope string_scope.
Open Scope Z_scope.

(** ** Numbers *)

Inductive float64 : Type :=
  | Fin (q : Qc)
  | PInf
  | NInf
  | NaN.

Global Instance float64_eq_dec : EqDecision float64.
Proof. solve_decision. Defined.

(** A data cell: [None] is pandas' missing value. *)
Definition of_cell (c : option Qc) : float64 :=
  match c with
  | Some q => Fin q
  | None => NaN
  end.

(** The result of an operation on finite numbers: round-to-nearest turns a
    result of magnitude [2^1024 - 2^970] or more into an infinity; a smaller
    one is kept as it is. *)
Definition float64_overflow : Qc := Qc_of_Z (2 ^ 1024 - 2 ^ 970).

Definition in_float64_range (q : Qc) : Prop :=
  (- float64_overflow < q)%Qc ∧ (q < float64_overflow)%Qc.

Global Instance in_float64_range_dec q : Decision (in_float64_range q).
Proof. unfold in_float64_range. apply _. Defined.

Definition to_float64 (q : Qc) : float64 :=
  if decide (float64_overflow ≤ q)%Qc then PInf
  else if decide (q ≤ - float64_overflow)%Qc then NInf
  else Fin q.

Definition float_sub (x y : float64) : float64 :=
  match x, y with
  | NaN, _ | _, NaN => NaN
  | Fin a, Fin b => to_float64 (a - b)
  | Fin _, PInf => NInf
  | Fin _, NInf => PInf
  | PInf, PInf => NaN
  | PInf, _ => PInf
  | NInf, NInf => NaN
  | NInf, _ => NInf
  end.

Definition float_div (x y : float64) : float64 :=
  match x, y with
  | NaN, _ | _, NaN => NaN
  | Fin a, Fin b =>
      if decide (b = 0%Qc) then
        if decide (a = 0%Qc) then NaN
        else if decide (0 < a)%Qc then PInf else NInf
      else to_float64 (a / b)
  | Fin _, _ => Fin 0%Qc
  | _, PInf | _, NInf => NaN
  | PInf, Fin b => if decide (0 ≤ b)%Qc then PInf else NInf
  | NInf, Fin b => if decide (0 ≤ b)%Qc then NInf else PInf
  end.

(** The "undefined" markers of the reports: an infinity or not-a-number. *)
Definition is_undefined (x : float64) : Prop :=
  match x with
  | Fin _ => False
  | _ => True
  end.

Global Instance is_undefined_dec x : Decision (is_undefined x).
Proof. destruct x; simpl; apply _. Defined.

(** [Series.sum()]: missing values are skipped, the empty sum is 0. *)
Definition Qc_sum (l : list Qc) : Qc := foldr Qcplus 0%Qc l.

Definition nansum (l : list (option Qc)) : Qc :=
  Qc_sum (default 0%Qc <$> l).

(** ** Sums of machine numbers

    The exact sums above have no rounding.  To tell what depends on it, the
    sum of a float64 column is given a second time on the binary64 numbers of
    the machine ([PrimFloat.float]), as pandas computes it: [groupby(...).sum()]
    adds the values of a group in row order with a running compensation
    (Kahan's summation, [group_sum]); a missing value is skipped.
    [float64_sum] is the plain sum from left to right. *)
Definition kahan_add (acc : float * float) (val : float) : float * float :=
  let '(sumx, compensation) := acc in
  if PrimFloat.is_nan val then acc
  else
    let y := PrimFloat.sub val compensation in
    let t := PrimFloat.add sumx y in
    let compensation := PrimFloat.sub (PrimFloat.sub t sumx) y in
    (t, if PrimFloat.is_nan compensation then 0%float else compensation).

Definition group_sum (values : list float) : float :=
  (foldl kahan_add (0%float, 0%float) values).1.

Definition float64_sum (values : list float) : float :=
  foldl (λ sumx val, if PrimFloat.is_nan val then sumx else PrimFloat.add sumx val)
        0%float values.

(** ** Exceptions *)

(** [ParserError] stands for whatever the CSV reader raises on bytes that
    it cannot read as a table (pandas' [ParserError], [EmptyDataError], a
    decoding error). *)
Inductive error : Type :=
  | FileNotFoundError (path : string)
  | ParserError (path : string)
  | KeyError (column : string)
  | ValueError
  | ZeroDivisionError
  | TypeError.

Global Instance error_eq_dec : EqDecision error.
Proof. solve_decision. Defined.

Inductive result (A : Type) : Type :=
  | Ok (a : A)
  | Err (e : error).
Arguments Ok {A} a.
Arguments Err {A} e.

Global Instance result_ret : MRet result := λ A a, Ok a.
Global Instance result_bind : MBind result := λ A B k m,
  match m with
  | Ok a => k a
  | Err e => Err e
  end.

(** [df[column]] on a header: a [KeyError] when the column is absent. *)
Definition require_column (columns : list string) (c : string) : result unit :=
  if decide (c ∈ columns) then Ok tt else Err (KeyError c).

Definition is_ok {A} (r : result A) : Prop :=
  match r with Ok _ => True | Err _ => False end.

(** ** Data frames *)

(** The simulation output: numeric columns only. *)
Record SimFrame : Type := {
  sim_columns : list string;
  sim_rows : list (gmap string (option Qc));
}.

Definition sim_cell (r : gmap string (option Qc)) (c : string) : option Qc :=
  default None (r !! c).

(** The mapping table: text columns only. *)
Record MappingFrame : Type := {
  map_columns : list string;
  map_rows : list (gmap string string);
}.

Definition text_cell (r : gmap string string) (c : string) : string :=
  default "" (r !! c).

(** ** The class [SectoralDiffReport] *)

Record SectoralDiffReport : Type := {
  iso_alpha_3 : string;
  ref_year : Z;
  ref_primary_id : Z;
  mapping_table_path : string;
  init_year : Z;
  edga_file_path : string;
  misc_dir_path : string;
  report_type : string;
}.

Fixpoint ends_with_slash (s : string) : bool :=
  match s with
  | EmptyString => false
  | String c EmptyString => Ascii.eqb c "/"
  | String _ s' => ends_with_slash s'
  end.

(** [os.path.join] (POSIX) on two components. *)
Definition os_path_join (a b : string) : string :=
  match b with
  | String "/" _ => b
  | _ =>
      match a with
      | EmptyString => b
      | _ => if ends_with_slash a then a +:+ b else a +:+ "/" +:+ b
      end
  end.

(** [__init__]; the Python defaults are [ref_year=2015], [ref_primary_id=0]. *)
Definition init (misc_dir : string) (iso : string) (init_yr : Z)
    (ref_yr : Z) (ref_id : Z) : SectoralDiffReport :=
  {| iso_alpha_3 := iso;
     ref_year := ref_yr;
     ref_primary_id := ref_id;
     mapping_table_path := os_path_join misc_dir "mapping.csv";
     init_year := init_yr;
     edga_file_path :=
       os_path_join misc_dir "CSC-GHG_emissions-April2024_to_calibrate.csv";
     misc_dir_path := misc_dir;
     report_type := "all-sectors" |}.

Definition init_default (misc_dir iso : string) (init_yr : Z) :=
  init misc_dir iso init_yr 2015 0.

(** ** Simulation Filter: [load_simulation_output_data] *)

(** [df['year'] = ...]: the column is appended when it is new. *)
Definition set_column_name (columns : list string) (c : string) : list string :=
  if decide (c ∈ columns) then columns else columns ++ [c].

Definition year_of (self : SectoralDiffReport) (r : gmap string (option Qc))
    : option Qc :=
  (λ t, t + Qc_of_Z (init_year self))%Qc <$> sim_cell r "time_period".

Definition add_year (self : SectoralDiffReport) (r : gmap string (option Qc))
    : gmap string (option Qc) :=
  <["year" := year_of self r]> r.

(** A comparison with a missing value is false. *)
Definition cell_eqb (c : option Qc) (z : Z) : bool :=
  match c with
  | Some q => bool_decide (q = Qc_of_Z z)
  | None => false
  end.

(** The boolean mask of line 51, on a row that carries its [year]. *)
Definition in_reference_slice (self : SectoralDiffReport)
    (r : gmap string (option Qc)) : Prop :=
  cell_eqb (sim_cell r "year") (ref_year self)
  && cell_eqb (sim_cell r "primary_id") (ref_primary_id self).

Global Instance in_reference_slice_dec self r :
  Decision (in_reference_slice self r).
Proof. unfold in_reference_slice. apply _. Defined.

Definition with_year (self : SectoralDiffReport) (df : SimFrame) : SimFrame :=
  {| sim_columns := set_column_name (sim_columns df) "year";
     sim_rows := add_year self <$> sim_rows df |}.

Definition select_reference_slice (self : SectoralDiffReport) (df : SimFrame)
    : SimFrame :=
  {| sim_columns := sim_columns df;
     sim_rows := filter (in_reference_slice self) (sim_rows df) |}.

Definition load_simulation_output_data (self : SectoralDiffReport)
    (simulation_df : SimFrame) : result SimFrame :=
  _ ← require_column (sim_columns simulation_df) "time_period";
  let simulation_df_filtered := with_year self simulation_df in
  _ ← require_column (sim_columns simulation_df_filtered) "primary_id";
  Ok (select_reference_slice self simulation_df_filtered).

(** The rows the specification keeps, in its words and not through the
    definitions above: the row has a [time_period] with
    [time_period + init_year = ref_year], and its [primary_id] is
    [ref_primary_id]. *)
Definition retained (self : SectoralDiffReport) (r : gmap string (option Qc))
    : Prop :=
  match r !! "time_period" with
  | Some (Some time_period) =>
      (time_period + Qc_of_Z (init_year self) = Qc_of_Z (ref_year self))%Qc
  | _ => False
  end
  ∧ r !! "primary_id" = Some (Some (Qc_of_Z (ref_primary_id self))).

Global Instance retained_dec self r : Decision (retained self r).
Proof.
  unfold retained. destruct (r !! "time_period") as [[time_period|]|]; apply _.
Defined.

(** ** Tables of the pipeline *)

(** The reference inventory as read: text columns ([Code], [CSC Subsector],
    [Gas], ...) and numeric columns (one per year). *)
Record EdgarRow : Type := {
  labels : gmap string string;
  values : gmap string (option Qc);
}.

Record EdgarFrame : Type := {
  edgar_columns : list string;
  edgar_rows : list EdgarRow;
}.

(** The long form of the reference inventory ([edgar_df_long]). *)
Record RefRow : Type := {
  r_Edgar_Class : string;
  r_Year : Z;
  r_Edgar_Values : option Qc;
}.

(** The dtype of the column [Edgar_Values].  A column of numbers is
    [float64]; [read_csv] on a file that has a header and no data row gives
    columns of dtype [object], whose cells are Python objects.  On a float64
    column a division by 0 gives an infinity or not-a-number; on Python
    objects it raises [ZeroDivisionError]. *)
Inductive dtype : Type :=
  | float64_dtype
  | object_dtype.

Global Instance dtype_eq_dec : EqDecision dtype.
Proof. solve_decision. Defined.

(** What the Reference ETL returns: the rows of the long table and the
    dtype of its [Edgar_Values] column.  The left join of line 133 hands this
    dtype on to the [Edgar_Values] column of the detailed report. *)
Record RefFrame : Type := {
  Edgar_Values_dtype : dtype;
  ref_rows : list RefRow;
}.

(** The mapping table with its [Simulation_Values] column. *)
Record AugRow : Type := {
  a_row : gmap string string;
  a_Simulation_Values : Qc;
}.

Record AugFrame : Type := {
  aug_columns : list string;
  aug_rows : list AugRow;
}.

Record DetailedDiffRow : Type := {
  d_Year : Z;
  d_Subsector : string;
  d_Edgar_Class : string;
  d_Simulation_Values : Qc;
  d_Edgar_Values : option Qc;
  d_diff : float64;
}.

Record SubsectorDiffRow : Type := {
  s_Year : Z;
  s_Subsector : string;
  s_Simulation_Values : Qc;
  s_Edgar_Values : Qc;
  s_diff : float64;
}.

Global Instance RefRow_eq_dec : EqDecision RefRow.
Proof. solve_decision. Defined.
Global Instance AugRow_eq_dec : EqDecision AugRow.
Proof. solve_decision. Defined.
Global Instance DetailedDiffRow_eq_dec : EqDecision DetailedDiffRow.
Proof. solve_decision. Defined.
Global Instance SubsectorDiffRow_eq_dec : EqDecision SubsectorDiffRow.
Proof. solve_decision. Defined.
Global Instance SimFrame_eq_dec : EqDecision SimFrame.
Proof. solve_decision. Defined.
Global Instance MappingFrame_eq_dec : EqDecision MappingFrame.
Proof. solve_decision. Defined.
Global Instance AugFrame_eq_dec : EqDecision AugFrame.
Proof. solve_decision. Defined.

(** ** The outside world: files, standard output and the pandas I/O calls *)

Record world : Type := {
  files : gmap string string;
  stdout : list string;
}.

(** What the code takes from pandas and the Python runtime without it being
    part of this repository: the CSV reader on the two input schemas
    ([None]: the bytes do not parse), the CSV writer on the two reports, and
    the order in which a [set] of strings is iterated (it depends on the
    hash seed of the process). *)
Class PandasIO : Type := {
  parse_mapping : string → option MappingFrame;
  parse_edgar : string → option EdgarFrame;
  render_detailed : list DetailedDiffRow → string;
  render_subsector : list SubsectorDiffRow → string;
  set_iter : gset string → list string;
}.

(** Computations that read and write the world and may raise. *)
Definition IO (A : Type) : Type := world → world * result A.

Global Instance IO_ret : MRet IO := λ A a w, (w, Ok a).
Global Instance IO_bind : MBind IO := λ A B k m w,
  match m w with
  | (w', Ok a) => k a w'
  | (w', Err e) => (w', Err e)
  end.

Definition lift {A} (r : result A) : IO A := λ w, (w, r).

Definition print (line : string) : IO unit :=
  λ w, ({| files := files w; stdout := stdout w ++ [line] |}, Ok tt).

Fixpoint print_all (lines : list string) : IO unit :=
  match lines with
  | [] => mret tt
  | line :: rest => _ ← print line; print_all rest
  end.

(** [DataFrame.to_csv(path)]. *)
Definition to_csv (path content : string) : IO unit :=
  λ w, ({| files := <[path := content]> (files w); stdout := stdout w |}, Ok tt).

(** [pd.read_csv(path)] with the parser of the expected schema: what is
    read from the bytes at [path], if any. *)
Definition parse_file {A} (parse : string → option A) (path : string)
    (bytes : option string) : result A :=
  match bytes with
  | None => Err (FileNotFoundError path)
  | Some bytes =>
      match parse bytes with
      | None => Err (ParserError path)
      | Some df => Ok df
      end
  end.

Definition read_csv {A} (parse : string → option A) (path : string) : IO A :=
  λ w, (w, parse_file parse path (files w !! path)).

(** ** Mapping Loader: [load_mapping_table] *)

Definition load_mapping_table `{PandasIO} (self : SectoralDiffReport)
    : IO MappingFrame :=
  read_csv parse_mapping (mapping_table_path self).

(** ** Reference ETL: [edgar_data_etl] *)

(** [str(n)] for a Python [int]. *)
Definition str (n : Z) : string := NilZero.string_of_int (Z.to_int n).

Definition edgar_class_of (r : EdgarRow) : string :=
  text_cell (labels r) "CSC Subsector" +:+ ":" +:+ text_cell (labels r) "Gas".

(** [melt] on the single value column [year]; [astype(int)] reads the
    label [str(ref_year)] back as [ref_year]. *)
Definition melt_year (self : SectoralDiffReport) (r : EdgarRow) : RefRow :=
  {| r_Edgar_Class := edgar_class_of r;
     r_Year := ref_year self;
     r_Edgar_Values := default None (values r !! str (ref_year self)) |}.

(** The dtype that [read_csv] gives the year columns. *)
Definition year_dtype (edgar_df : EdgarFrame) : dtype :=
  match edgar_rows edgar_df with
  | [] => object_dtype
  | _ => float64_dtype
  end.

(** [melt(..., value_name='Edgar_Values')] refuses a frame that has a column
    of that name already, before it looks for [id_vars] and [value_vars]. *)
Definition require_no_column (columns : list string) (c : string) : result unit :=
  if decide (c ∈ columns) then Err ValueError else Ok tt.

(** Lines 60-77, on the table that was read. *)
Definition edgar_long (self : SectoralDiffReport) (edgar_df : EdgarFrame)
    : result RefFrame :=
  _ ← require_column (edgar_columns edgar_df) "Code";
  let rows :=
    filter (λ r, text_cell (labels r) "Code" = iso_alpha_3 self)
           (edgar_rows edgar_df) in
  _ ← require_column (edgar_columns edgar_df) "CSC Subsector";
  _ ← require_column (edgar_columns edgar_df) "Gas";
  let columns := set_column_name (edgar_columns edgar_df) "Edgar_Class" in
  _ ← require_no_column columns "Edgar_Values";
  _ ← require_column columns "Edgar_Class";
  _ ← require_column columns (str (ref_year self));
  Ok {| Edgar_Values_dtype := year_dtype edgar_df;
        ref_rows := melt_year self <$> rows |}.

Definition edgar_data_etl `{PandasIO} (self : SectoralDiffReport)
    : IO RefFrame :=
  edgar_df ← read_csv parse_edgar (edga_file_path self);
  lift (edgar_long self edgar_df).

(** ** Aggregator: [calculate_ssp_emission_totals] *)

(** [s.split(sep)] for a one-character separator. *)
Fixpoint split (sep : ascii) (s : string) : list string :=
  match s with
  | EmptyString => [EmptyString]
  | String c s' =>
      if Ascii.eqb c sep then EmptyString :: split sep s'
      else match split sep s' with
           | [] => [String c EmptyString]
           | w :: ws => String c w :: ws
           end
  end.

(** [simulation_df[c].sum()] *)
Definition column_total (simulation_df : SimFrame) (c : string) : Qc :=
  nansum ((λ r, sim_cell r c) <$> sim_rows simulation_df).

(** Lines 96-109 for one row: the names missing in the row and its total. *)
Definition missing_in_row (simulation_df_cols : gset string)
    (vars_list : list string) : list string :=
  filter (λ var, var ∉ simulation_df_cols) vars_list.

Definition matching_columns (simulation_df_cols : gset string)
    (vars_list : list string) : list string :=
  filter (λ col, col ∈ simulation_df_cols) vars_list.

Definition subsector_total_emissions (simulation_df : SimFrame)
    (simulation_df_cols : gset string) (vars_list : list string) : Qc :=
  match matching_columns simulation_df_cols vars_list with
  | [] => 0%Qc
  | cols => Qc_sum (column_total simulation_df <$> cols)
  end.

(** The loop of lines 95-112 over the rows of the draft, in index order;
    [row['Vars']] raises when the header has no such column. *)
Fixpoint aggregate_rows (simulation_df : SimFrame) (columns : list string)
    (rows : list (gmap string string)) (missing_variables : gset string)
    : result (list AugRow * gset string) :=
  match rows with
  | [] => Ok ([], missing_variables)
  | row :: rest =>
      _ ← require_column columns "Vars";
      let simulation_df_cols := list_to_set (sim_columns simulation_df) in
      let vars_list := split ":" (text_cell row "Vars") in
      let missing_variables :=
        missing_variables
        ∪ list_to_set (missing_in_row simulation_df_cols vars_list) in
      let total :=
        subsector_total_emissions simulation_df simulation_df_cols vars_list in
      '(done, missing_variables) ←
        aggregate_rows simulation_df columns rest missing_variables;
      Ok ({| a_row := row; a_Simulation_Values := total |} :: done,
          missing_variables)
  end.

Definition aggregate (simulation_df : SimFrame) (mapping_df : MappingFrame)
    : result (AugFrame * gset string) :=
  let columns := set_column_name (map_columns mapping_df) "Simulation_Values" in
  '(rows, missing_variables) ←
    aggregate_rows simulation_df columns (map_rows mapping_df) ∅;
  Ok ({| aug_columns := columns; aug_rows := rows |}, missing_variables).

(** What the loop computes for one row, and the names it collects. *)
Definition vars_of (row : gmap string string) : list string :=
  split ":" (text_cell row "Vars").

Definition aug_of (simulation_df : SimFrame) (row : gmap string string) : AugRow :=
  {| a_row := row;
     a_Simulation_Values :=
       subsector_total_emissions simulation_df
         (list_to_set (sim_columns simulation_df)) (vars_of row) |}.

Definition missing_of (simulation_df : SimFrame)
    (rows : list (gmap string string)) : gset string :=
  list_to_set
    (rows ≫= λ row,
       missing_in_row (list_to_set (sim_columns simulation_df)) (vars_of row)).

(** How often a name is listed when the set is read out. *)
Definition occurrences (v : string) (s : gset string) : nat :=
  length (filter (λ x, x = v) (elements s)).

(** Lines 114-120: the diagnostic printed after the loop. *)
Definition print_missing `{PandasIO} (missing_variables : gset string) : IO unit :=
  if decide (missing_variables = ∅) then
    print "All variables from Vars are present in simulation_df."
  else
    _ ← print "The following variables from Vars are not present in simulation_df:";
    print_all (set_iter missing_variables).

Definition calculate_ssp_emission_totals `{PandasIO} (self : SectoralDiffReport)
    (simulation_df : SimFrame) (mapping_df : MappingFrame) : IO AugFrame :=
  '(detailed_report_draft_df, missing_variables) ←
    lift (aggregate simulation_df mapping_df);
  _ ← print_missing missing_variables;
  mret detailed_report_draft_df.

(** ** [groupby(...).sum().reset_index()] *)

(** Group keys come out sorted; strings are ordered bytewise, tuples of
    keys lexicographically. *)
Definition string_le (a b : string) : Prop := String.leb a b.

Definition pair_le (a b : string * string) : Prop :=
  match String.compare a.1 b.1 with
  | Lt => True
  | Eq => string_le a.2 b.2
  | Gt => False
  end.

Global Instance string_le_dec : RelDecision string_le.
Proof. intros a b. unfold string_le. apply _. Defined.

Global Instance pair_le_dec : RelDecision pair_le.
Proof. intros a b. unfold pair_le. destruct (a.1 ?= b.1)%string; apply _. Defined.

Section groupby.
Context {A K : Type} `{EqDecision K}.
Context (R : relation K) `{!RelDecision R}.
Context (key : A → K).

Definition group_keys (rows : list A) : list K :=
  merge_sort R (remove_dups (key <$> rows)).

Definition group (rows : list A) (k : K) : list A :=
  filter (λ r, key r = k) rows.

Definition group_total (val : A → Qc) (rows : list A) (k : K) : Qc :=
  Qc_sum (val <$> group rows k).

Definition groupby_sum (val : A → Qc) (rows : list A) : list (K * Qc) :=
  (λ k, (k, group_total val rows k)) <$> group_keys rows.

(** The same for any kind of number, given the sum of a column. *)
Definition groupby_sum_with {V : Type} (sum : list V → V) (val : A → V)
    (rows : list A) : list (K * V) :=
  (λ k, (k, sum (val <$> group rows k))) <$> group_keys rows.
End groupby.

(** ** Detailed Diff Builder: [generate_detailed_diff_report] *)

Definition subsector_class (r : AugRow) : string * string :=
  (text_cell (a_row r) "Subsector", text_cell (a_row r) "Edgar_Class").

(** Line 130. *)
Definition detailed_diff_report_agg (detailed_diff_report : AugFrame)
    : result (list (string * string * Qc)) :=
  _ ← require_column (aug_columns detailed_diff_report) "Subsector";
  _ ← require_column (aug_columns detailed_diff_report) "Edgar_Class";
  Ok (groupby_sum pair_le subsector_class a_Simulation_Values
        (aug_rows detailed_diff_report)).

(** Line 133, [pd.merge(..., how='left')] on [Edgar_Class]: every left row,
    in order, once per matching right row, and once with nothing when no
    right row matches. *)
Definition matches (edgar_df : list RefRow) (class : string) : list RefRow :=
  filter (λ e, r_Edgar_Class e = class) edgar_df.

Definition left_matches (edgar_df : list RefRow) (l : string * string * Qc)
    : list (string * string * Qc * option RefRow) :=
  match matches edgar_df l.1.2 with
  | [] => [(l, None)]
  | ms => (λ e, (l, Some e)) <$> ms
  end.

Definition merge_left (agg : list (string * string * Qc))
    (edgar_df : list RefRow) : list (string * string * Qc * option RefRow) :=
  agg ≫= left_matches edgar_df.

Definition relative_diff (sim ref : float64) : float64 :=
  float_div (float_sub sim ref) ref.

(** Lines 136-141. *)
Definition detailed_row (self : SectoralDiffReport)
    (m : string * string * Qc * option RefRow) : DetailedDiffRow :=
  let Edgar_Values := m.2 ≫= r_Edgar_Values in
  {| d_Year := ref_year self;
     d_Subsector := m.1.1.1;
     d_Edgar_Class := m.1.1.2;
     d_Simulation_Values := m.1.2;
     d_Edgar_Values := Edgar_Values;
     d_diff := relative_diff (Fin m.1.2) (of_cell Edgar_Values) |}.

(** The reference table is given by its rows: the dtype of its column
    [Edgar_Values] has no part in lines 127-141 (a missing value minus or
    divided by anything is not-a-number on either dtype, and a column of
    objects has no other values, see [year_dtype]); the left join hands it
    on to the report, and the Orchestrator to the Subsector Diff Builder. *)
Definition generate_detailed_diff_report (self : SectoralDiffReport)
    (detailed_report_draft_df : AugFrame) (edgar_df : list RefRow)
    : result (list DetailedDiffRow) :=
  detailed_diff_report_agg ← detailed_diff_report_agg detailed_report_draft_df;
  let detailed_diff_report_merge := merge_left detailed_diff_report_agg edgar_df in
  Ok (detailed_row self <$> detailed_diff_report_merge).

(** ** Subsector Diff Builder: [generate_subsector_diff_report] *)

Definition subsector_row (self : SectoralDiffReport)
    (detailed : list DetailedDiffRow) (Subsector : string) : SubsectorDiffRow :=
  let Simulation_Values :=
    group_total d_Subsector d_Simulation_Values detailed Subsector in
  let Edgar_Values :=
    nansum (d_Edgar_Values <$> group d_Subsector detailed Subsector) in
  {| s_Year := ref_year self;
     s_Subsector := Subsector;
     s_Simulation_Values := Simulation_Values;
     s_Edgar_Values := Edgar_Values;
     s_diff := relative_diff (Fin Simulation_Values) (Fin Edgar_Values) |}.

(** Line 151 on a column [Edgar_Values] of Python objects: the division
    is Python's, which raises for the divisor 0. *)
Definition python_division (dt : dtype) (report : list SubsectorDiffRow)
    : result unit :=
  match dt with
  | float64_dtype => Ok tt
  | object_dtype =>
      if decide (Exists (λ s, s_Edgar_Values s = 0%Qc) report)
      then Err ZeroDivisionError else Ok tt
  end.

(** The frame [detailed_diff_report_complete] is given by its rows and the
    dtype of its column [Edgar_Values]. *)
Definition generate_subsector_diff_report (self : SectoralDiffReport)
    (Edgar_Values : dtype) (detailed_diff_report_complete : list DetailedDiffRow)
    : result (list SubsectorDiffRow) :=
  let subsector_diff_report :=
    subsector_row self detailed_diff_report_complete
    <$> group_keys string_le d_Subsector detailed_diff_report_complete in
  _ ← python_division Edgar_Values subsector_diff_report;
  Ok subsector_diff_report.

(** ** The two roll-ups of [Simulation_Values]

    [rollup_two_level] is the grouping of line 130 followed by the grouping
    of line 148 on its result; [rollup_direct] is the comparison the
    specification names: the augmented mapping table grouped by [Subsector]
    alone.  Both are given for any kind of number [V] with the sum [sum] of a
    column: the exact rationals with [Qc_sum], where they are the groupings
    of the two builders, and the float64 numbers of the machine with
    [group_sum]. *)
Section rollup.
Context {V A : Type} (sum : list V → V).
Context (subsector_class : A → string * string) (Simulation_Values : A → V).

Definition rollup_two_level (rows : list A) : list (string * V) :=
  groupby_sum_with string_le (λ g : string * string * V, g.1.1) sum snd
    (groupby_sum_with pair_le subsector_class sum Simulation_Values rows).

Definition rollup_direct (rows : list A) : list (string * V) :=
  groupby_sum_with string_le (λ r, (subsector_class r).1) sum
    Simulation_Values rows.
End rollup.

(** The [Simulation_Values] column of a subsector report. *)
Definition subsector_simulation_values (report : list SubsectorDiffRow)
    : list (string * Qc) :=
  (λ r, (s_Subsector r, s_Simulation_Values r)) <$> report.

(** The rows of a detailed report for one (Subsector, Edgar_Class) pair. *)
Definition rows_for (p : string * string) (report : list DetailedDiffRow)
    : list DetailedDiffRow :=
  filter (λ d, (d_Subsector d, d_Edgar_Class d) = p) report.

(** A detailed row in which a missing reference value is replaced by 0. *)
Definition zero_fill (d : DetailedDiffRow) : DetailedDiffRow :=
  {| d_Year := d_Year d;
     d_Subsector := d_Subsector d;
     d_Edgar_Class := d_Edgar_Class d;
     d_Simulation_Values := d_Simulation_Values d;
     d_Edgar_Values := Some (default 0%Qc (d_Edgar_Values d));
     d_diff := d_diff d |}.

(** ** Orchestrator: [generate_diff_reports] *)

Definition detailed_report_path (self : SectoralDiffReport) : string :=
  os_path_join (misc_dir_path self)
    ("detailed_diff_report_" +:+ report_type self +:+ ".csv").

Definition subsector_report_path (self : SectoralDiffReport) : string :=
  os_path_join (misc_dir_path self)
    ("subsector_diff_report_" +:+ report_type self +:+ ".csv").

Definition generate_diff_reports `{PandasIO} (self : SectoralDiffReport)
    (simulation_df : SimFrame)
    : IO (list DetailedDiffRow * list SubsectorDiffRow) :=
  mapping_df ← load_mapping_table self;
  simulation_df_filtered ← lift (load_simulation_output_data self simulation_df);
  edgar_df ← edgar_data_etl self;
  detailed_report_draft_df ←
    calculate_ssp_emission_totals self simulation_df_filtered mapping_df;
  detailed_diff_report_complete ←
    lift (generate_detailed_diff_report self detailed_report_draft_df
            (ref_rows edgar_df));
  subsector_diff_report ←
    lift (generate_subsector_diff_report self (Edgar_Values_dtype edgar_df)
            detailed_diff_report_complete);
  _ ← to_csv (detailed_report_path self)
             (render_detailed detailed_diff_report_complete);
  _ ← to_csv (subsector_report_path self)
             (render_subsector subsector_diff_report);
  mret (detailed_diff_report_complete, subsector_diff_report).

(** The reports as a function of what the two input files hold. *)
Definition reports_of `{PandasIO} (self : SectoralDiffReport)
    (simulation_df : SimFrame) (mapping_bytes edgar_bytes : option string)
    : result (list DetailedDiffRow * list SubsectorDiffRow) :=
  mapping_df ← parse_file parse_mapping (mapping_table_path self) mapping_bytes;
  simulation_df_filtered ← load_simulation_output_data self simulation_df;
  edgar_df ← parse_file parse_edgar (edga_file_path self) edgar_bytes
             ≫= edgar_long self;
  draft ← aggregate simulation_df_filtered mapping_df;
  detailed ← generate_detailed_diff_report self draft.1 (ref_rows edgar_df);
  subsector ←
    generate_subsector_diff_report self (Edgar_Values_dtype edgar_df) detailed;
  Ok (detailed, subsector).

(** The same pandas with another iteration order of sets. *)
Definition with_set_iter (io : PandasIO) (order : gset string → list string)
    : PandasIO :=
  {| parse_mapping := @parse_mapping io;
     parse_edgar := @parse_edgar io;
     render_detailed := @render_detailed io;
     render_subsector := @render_subsector io;
     set_iter := order |}.

(** ** The stages on objects

    The three stages that assign to a frame ([df[c] = ...], [df.at[i, c] =
    ...]) are written once more on a store of objects, where a variable holds
    a reference, [.copy()] allocates, an assignment to a column or a cell
    overwrites the object in place, and indexing, [groupby] and [merge]
    build new objects. *)

Inductive object : Type :=
  | SimObj (df : SimFrame)
  | MappingObj (df : MappingFrame)
  | AugObj (df : AugFrame)
  | RefObj (df : list RefRow)
  | AggObj (df : list (string * string * Qc))
  | MergedObj (df : list (string * string * Qc * option RefRow))
  | DetailedObj (df : list DetailedDiffRow).

Definition Mem (A : Type) : Type := gmap nat object → gmap nat object * result A.

Global Instance Mem_ret : MRet Mem := λ A a h, (h, Ok a).
Global Instance Mem_bind : MBind Mem := λ A B k m h,
  match m h with
  | (h', Ok a) => k a h'
  | (h', Err e) => (h', Err e)
  end.

Definition raise {A} (r : result A) : Mem A := λ h, (h, r).

Definition alloc (o : object) : Mem nat :=
  λ h, let l := fresh (dom h) in (<[l := o]> h, Ok l).

Definition load (l : nat) : Mem object :=
  λ h, match h !! l with
       | Some o => (h, Ok o)
       | None => (h, Err TypeError)
       end.

Definition store (l : nat) (o : object) : Mem unit :=
  λ h, (<[l := o]> h, Ok tt).

(** [df.copy()] *)
Definition copy (l : nat) : Mem nat := o ← load l; alloc o.

Definition load_sim (l : nat) : Mem SimFrame :=
  o ← load l; match o with SimObj df => mret df | _ => raise (Err TypeError) end.

Definition load_aug (l : nat) : Mem AugFrame :=
  o ← load l; match o with AugObj df => mret df | _ => raise (Err TypeError) end.

Definition load_mapping (l : nat) : Mem MappingFrame :=
  o ← load l; match o with MappingObj df => mret df | _ => raise (Err TypeError) end.

Definition load_ref (l : nat) : Mem (list RefRow) :=
  o ← load l; match o with RefObj df => mret df | _ => raise (Err TypeError) end.

Definition load_simulation_output_data_obj (self : SectoralDiffReport)
    (simulation_df : nat) : Mem nat :=
  simulation_df_filtered ← copy simulation_df;
  df ← load_sim simulation_df_filtered;
  _ ← raise (require_column (sim_columns df) "time_period");
  _ ← store simulation_df_filtered (SimObj (with_year self df));
  df ← load_sim simulation_df_filtered;
  _ ← raise (require_column (sim_columns df) "primary_id");
  alloc (SimObj (select_reference_slice self df)).

(** Line 86: [df['Simulation_Values'] = 0]. *)
Definition zero_simulation_values (mapping_df : MappingFrame) : AugFrame :=
  {| aug_columns := set_column_name (map_columns mapping_df) "Simulation_Values";
     aug_rows :=
       (λ r, {| a_row := r; a_Simulation_Values := 0%Qc |}) <$> map_rows mapping_df |}.

(** Line 112: [df.at[index, 'Simulation_Values'] = v]. *)
Definition set_simulation_value (index : nat) (v : Qc) (df : AugFrame) : AugFrame :=
  {| aug_columns := aug_columns df;
     aug_rows :=
       alter (λ r, {| a_row := a_row r; a_Simulation_Values := v |}) index
             (aug_rows df) |}.

Fixpoint aggregate_loop (simulation_df : SimFrame) (detailed_report_draft_df : nat)
    (iterrows : list (nat * AugRow)) (missing_variables : gset string)
    : Mem (gset string) :=
  match iterrows with
  | [] => mret missing_variables
  | (index, row) :: rest =>
      draft ← load_aug detailed_report_draft_df;
      _ ← raise (require_column (aug_columns draft) "Vars");
      let simulation_df_cols := list_to_set (sim_columns simulation_df) in
      let vars_list := split ":" (text_cell (a_row row) "Vars") in
      let missing_variables :=
        missing_variables
        ∪ list_to_set (missing_in_row simulation_df_cols vars_list) in
      let total :=
        subsector_total_emissions simulation_df simulation_df_cols vars_list in
      _ ← store detailed_report_draft_df
                (AugObj (set_simulation_value index total draft));
      aggregate_loop simulation_df detailed_report_draft_df rest missing_variables
  end.

Definition calculate_ssp_emission_totals_obj (simulation_df mapping_df : nat)
    : Mem (nat * gset string) :=
  detailed_report_draft_df ← copy mapping_df;
  m ← load_mapping detailed_report_draft_df;
  _ ← store detailed_report_draft_df (AugObj (zero_simulation_values m));
  sim ← load_sim simulation_df;
  draft ← load_aug detailed_report_draft_df;
  missing_variables ←
    aggregate_loop sim detailed_report_draft_df
      (imap (λ i r, (i, r)) (aug_rows draft)) ∅;
  mret (detailed_report_draft_df, missing_variables).

Definition generate_detailed_diff_report_obj (self : SectoralDiffReport)
    (detailed_report_draft_df edgar_df : nat) : Mem nat :=
  detailed_diff_report ← copy detailed_report_draft_df;
  df ← load_aug detailed_diff_report;
  agg ← raise (detailed_diff_report_agg df);
  detailed_diff_report_agg ← alloc (AggObj agg);
  edgar ← load_ref edgar_df;
  detailed_diff_report_merge ← alloc (MergedObj (merge_left agg edgar));
  _ ← store detailed_diff_report_merge
            (DetailedObj (detailed_row self <$> merge_left agg edgar));
  alloc (DetailedObj (detailed_row self <$> merge_left agg edgar)).

(** The objects that were in the store are still there, unchanged. *)
Definition preserves (h h' : gmap nat object) : Prop :=
  ∀ l o, h !! l = Some o → h' !! l = Some o.

(** A computation keeps the store [h0] when, started in any store that
    still holds the objects of [h0] unchanged, it ends in such a store; [Q]
    is what it promises about the value it returns. *)
Definition keeps (h0 : gmap nat object) {A} (m : Mem A) (Q : A → Prop) : Prop :=
  ∀ h, preserves h0 h →
       preserves h0 (m h).1 ∧ ∀ a, (m h).2 = Ok a → Q a.

(** [wp m Φ Ψ h]: started in the store [h], the computation [m] either
    returns a value and a store that satisfy [Φ], or raises an exception that
    satisfies [Ψ]. *)
Definition wp {A} (m : Mem A) (Φ : A → gmap nat object → Prop)
    (Ψ : error → Prop) (h : gmap nat object) : Prop :=
  match m h with
  | (h', Ok a) => Φ a h'
  | (_, Err e) => Ψ e
  end.

(** A reference to an object that was made after [h0]. *)
Definition new_in (h0 : gmap nat object) (l : nat) : Prop := l ∉ dom h0.

(** ** Auxiliary notions for the further properties *)

(** [sep.join(pieces)] *)
Fixpoint join (sep : string) (pieces : list string) : string :=
  match pieces with
  | [] => ""
  | [p] => p
  | p :: rest => p +:+ sep +:+ join sep rest
  end.

(** The characters of a string. *)
Fixpoint chars (s : string) : list ascii :=
  match s with
  | EmptyString => []
  | String c s' => c :: chars s'
  end.

(** The first of the columns [wanted] that the header does not have. *)
Definition first_missing (columns wanted : list string) : option string :=
  head (filter (λ c, c ∉ columns) wanted).

(** What a variable name adds to the total of a mapping row. *)
Definition contribution (simulation_df : SimFrame) (var : string) : Qc :=
  if decide (var ∈ sim_columns simulation_df)
  then column_total simulation_df var else 0%Qc.

(** The lines of lines 114-120 for a set of missing variables. *)
Definition diagnostic `{PandasIO} (missing_variables : gset string) : list string :=
  if decide (missing_variables = ∅)
  then ["All variables from Vars are present in simulation_df."]
  else "The following variables from Vars are not present in simulation_df:"
       :: set_iter missing_variables.

(** ** Example tables (the scenarios of the specification) *)

Definition num (z : Z) : option Qc := Some (Qc_of_Z z).

Definition ex_self : SectoralDiffReport := init_default "misc" "HRV" 2010.

Definition ex_row_id0 : gmap string (option Qc) :=
  {[ "time_period" := num 5; "primary_id" := num 0;
     "CO2_A" := num 10; "CO2_B" := num 5 ]}.

Definition ex_row_id1 : gmap string (option Qc) :=
  {[ "time_period" := num 5; "primary_id" := num 1;
     "CO2_A" := num 100; "CO2_B" := num 50 ]}.

Definition ex_simulation_df : SimFrame :=
  {| sim_columns := ["time_period"; "primary_id"; "CO2_A"; "CO2_B"];
     sim_rows := [ex_row_id0; ex_row_id1] |}.

(** The same table with a row of another year, a row without
    [time_period], and a row of the reference year for another entity. *)
Definition ex_simulation_df_years : SimFrame :=
  {| sim_columns := ["time_period"; "primary_id"; "CO2_A"; "CO2_B"];
     sim_rows :=
       [ {[ "time_period" := num 4; "primary_id" := num 0;
            "CO2_A" := num 7; "CO2_B" := num 3 ]};
         ex_row_id0;
         {[ "time_period" := None; "primary_id" := num 0;
            "CO2_A" := num 1; "CO2_B" := num 1 ]};
         ex_row_id1;
         {[ "time_period" := num 6; "primary_id" := num 0;
            "CO2_A" := num 9; "CO2_B" := num 9 ]} ] |}.

(** The slice of the reference year and entity. *)
Definition ex_slice : SimFrame :=
  select_reference_slice ex_self (with_year ex_self ex_simulation_df).

Definition ex_mapping_df : MappingFrame :=
  {| map_columns := ["Sector"; "Subsector"; "Vars"; "Edgar_Class"];
     map_rows :=
       [ {[ "Sector" := "Energy"; "Subsector" := "Energy";
            "Vars" := "CO2_A:CO2_B"; "Edgar_Class" := "Energy:CO2" ]};
         {[ "Sector" := "Energy"; "Subsector" := "Energy";
            "Vars" := "CO2_A"; "Edgar_Class" := "Energy:CO2" ]};
         {[ "Sector" := "Energy"; "Subsector" := "Energy";
            "Vars" := "co2_a:CH4"; "Edgar_Class" := "Energy:CH4" ]};
         {[ "Sector" := "Energy"; "Subsector" := "Energy";
            "Vars" := "CH4:N2O"; "Edgar_Class" := "Energy:CH4" ]} ] |}.

Definition ex_edgar_df : EdgarFrame :=
  {| edgar_columns := ["Code"; "CSC Subsector"; "Gas"; "2015"];
     edgar_rows :=
       [ {| labels := {[ "Code" := "HRV"; "CSC Subsector" := "Energy"; "Gas" := "CO2" ]};
            values := {[ "2015" := num 20 ]} |};
         {| labels := {[ "Code" := "FRA"; "CSC Subsector" := "Energy"; "Gas" := "CO2" ]};
            values := {[ "2015" := num 99 ]} |} ] |}.

(** The same inventory without its ["2015"] column. *)
Definition ex_edgar_df_no_year : EdgarFrame :=
  {| edgar_columns := ["Code"; "CSC Subsector"; "Gas"; "2014"];
     edgar_rows :=
       [ {| labels := {[ "Code" := "HRV"; "CSC Subsector" := "Energy"; "Gas" := "CO2" ]};
            values := {[ "2014" := num 20 ]} |} ] |}.

(** The same inventory with its header and no data row, and with a column
    that is already named [Edgar_Values]. *)
Definition ex_edgar_df_header_only : EdgarFrame :=
  {| edgar_columns := ["Code"; "CSC Subsector"; "Gas"; "2015"];
     edgar_rows := [] |}.

Definition ex_edgar_df_Edgar_Values : EdgarFrame :=
  {| edgar_columns := ["Code"; "CSC Subsector"; "Gas"; "2015"; "Edgar_Values"];
     edgar_rows := edgar_rows ex_edgar_df |}.

(** A mapping table without its [Sector] column. *)
Definition ex_mapping_df_no_sector : MappingFrame :=
  {| map_columns := ["Subsector"; "Vars"; "Edgar_Class"];
     map_rows :=
       [ {[ "Subsector" := "Energy"; "Vars" := "CO2_A:CO2_B";
            "Edgar_Class" := "Energy:CO2" ]} ] |}.

(** The augmented mapping table and the long reference table of the
    example, and variants of the reference: a value 0, and the class
    [Energy:CO2] twice. *)
Definition ex_draft : AugFrame :=
  {| aug_columns := set_column_name (map_columns ex_mapping_df) "Simulation_Values";
     aug_rows := aug_of ex_slice <$> map_rows ex_mapping_df |}.

Definition ex_ref : list RefRow :=
  [ {| r_Edgar_Class := "Energy:CO2"; r_Year := 2015; r_Edgar_Values := num 20 |} ].

Definition ex_ref_zero : list RefRow :=
  [ {| r_Edgar_Class := "Energy:CO2"; r_Year := 2015; r_Edgar_Values := num 0 |};
    {| r_Edgar_Class := "Energy:CH4"; r_Year := 2015; r_Edgar_Values := num 0 |} ].

Definition ex_ref_twice : list RefRow :=
  [ {| r_Edgar_Class := "Energy:CO2"; r_Year := 2015; r_Edgar_Values := num 20 |};
    {| r_Edgar_Class := "Energy:CO2"; r_Year := 2015; r_Edgar_Values := num 5 |} ].

(** A toy reader and writer: four file contents are known. *)
Definition ex_io (order : gset string → list string) : PandasIO :=
  {| parse_mapping bytes :=
       if decide (bytes = "mapping") then Some ex_mapping_df
       else if decide (bytes = "mapping without Sector")
            then Some ex_mapping_df_no_sector
       else None;
     parse_edgar bytes :=
       if decide (bytes = "edgar") then Some ex_edgar_df
       else if decide (bytes = "edgar without 2015")
            then Some ex_edgar_df_no_year
       else if decide (bytes = "edgar header only")
            then Some ex_edgar_df_header_only
       else if decide (bytes = "edgar with Edgar_Values")
            then Some ex_edgar_df_Edgar_Values
       else None;
     render_detailed d := "detailed report of " +:+ str (Z.of_nat (length d)) +:+ " rows";
     render_subsector d := "subsector report of " +:+ str (Z.of_nat (length d)) +:+ " rows";
     set_iter := order |}.

Definition ex_world (mapping edgar : string) : world :=
  {| files := {[ mapping_table_path ex_self := mapping;
                 edga_file_path ex_self := edgar ]};
     stdout := [] |}.

(** Four float64 values of one subsector in two classes, in the order of
    the rows: 1 and 1 in class [Y], [2^100] and [-2^100] in class [X]. *)
Definition ex_float_rows : list (string * string * float) :=
  [ ("S", "Y", 1%float); ("S", "X", 0x1p100%float);
    ("S", "Y", 1%float); ("S", "X", (-0x1p100)%float) ].

(** * Properties *)

(** ** Simulation Filter *)

Lemma filter_fmap {A B} (f : A → B) (P : B → Prop) `{!∀ x, Decision (P x)}
    (l : list A) :
  filter P (f <$> l) = f <$> filter (λ x, P (f x)) l.
Proof.
  induction l as [|a l IH]; [done|].
  rewrite fmap_cons, !filter_cons.
  destruct (decide (P (f a))); by rewrite ?fmap_cons, IH.
Qed.

Lemma cell_eqb_spec c z : cell_eqb c z ↔ c = Some (Qc_of_Z z).
Proof.
  destruct c as [q|]; simpl.
  - rewrite bool_decide_spec. split; [by intros -> | by intros [= ->]].
  - split; [done | discriminate].
Qed.

Lemma sim_cell_Some (r : gmap string (option Qc)) c q :
  sim_cell r c = Some q ↔ r !! c = Some (Some q).
Proof.
  unfold sim_cell. destruct (r !! c) as [[q'|]|]; cbn; split; congruence.
Qed.

Lemma in_reference_slice_add_year self r :
  in_reference_slice self (add_year self r) ↔ retained self r.
Proof.
  unfold in_reference_slice, retained, add_year.
  rewrite andb_True, !cell_eqb_spec, !sim_cell_Some.
  rewrite lookup_insert_eq, lookup_insert_ne by done.
  apply and_iff_compat_r. unfold year_of, sim_cell.
  destruct (r !! "time_period") as [[time_period|]|].
  - split.
    + intros H. apply (inj Some), (inj Some) in H. exact H.
    + intros H. exact (f_equal (λ q, Some (Some q)) H).
  - split; [discriminate|done].
  - split; [discriminate|done].
Qed.

(** A retained row gets the reference year as its [year]. *)
Lemma add_year_retained self r :
  retained self r →
  add_year self r = <["year" := Some (Qc_of_Z (ref_year self))]> r.
Proof.
  intros [Hyear _]. unfold add_year, year_of, sim_cell.
  destruct (r !! "time_period") as [[time_period|]|]; [|done..].
  exact (f_equal (λ q, <["year" := Some q]> r) Hyear).
Qed.

(** Whether a row is retained depends on its [time_period] and
    [primary_id] only. *)
Lemma retained_insert_year self r r' y y' :
  <["year" := y]> r = <["year" := y']> r' → retained self r' → retained self r.
Proof.
  intros Heq. unfold retained.
  assert (Hsame : ∀ c, c ≠ "year" → r !! c = r' !! c).
  { intros c Hc. apply (f_equal (λ m, m !! c)) in Heq.
    by rewrite !lookup_insert_ne in Heq. }
  by rewrite !Hsame.
Qed.

Lemma require_column_ok columns c : c ∈ columns → require_column columns c = Ok tt.
Proof. intros. unfold require_column. by rewrite decide_True. Qed.

Lemma require_column_err columns c :
  c ∉ columns → require_column columns c = Err (KeyError c).
Proof. intros. unfold require_column. by rewrite decide_False. Qed.

Lemma elem_of_set_column_name columns c c' :
  c' ∈ set_column_name columns c ↔ c' = c ∨ c' ∈ columns.
Proof.
  unfold set_column_name. destruct (decide (c ∈ columns)) as [Hc|Hc].
  - split; [by right|]. by intros [->|?].
  - rewrite elem_of_app, list_elem_of_singleton. tauto.
Qed.

(** C5. On a simulation table that has the columns [time_period] and
    [primary_id], the Simulation Filter returns, in order and each with the
    reference year in its [year] cell, exactly the rows whose
    [time_period + init_year] is [ref_year] and whose [primary_id] is
    [ref_primary_id]; a row without a [time_period] is not among them. *)
Theorem load_simulation_output_data_retains (self : SectoralDiffReport)
    (simulation_df : SimFrame) :
  "time_period" ∈ sim_columns simulation_df →
  "primary_id" ∈ sim_columns simulation_df →
  ∃ out, load_simulation_output_data self simulation_df = Ok out
    ∧ sim_rows out
      = (λ r, <["year" := Some (Qc_of_Z (ref_year self))]> r)
        <$> filter (retained self) (sim_rows simulation_df)
    ∧ ∀ r, r ∈ sim_rows simulation_df →
           (<["year" := Some (Qc_of_Z (ref_year self))]> r ∈ sim_rows out
            ↔ retained self r).
Proof.
  intros Htp Hid.
  exists (select_reference_slice self (with_year self simulation_df)).
  assert (Hrows : sim_rows (select_reference_slice self
                              (with_year self simulation_df))
                  = (λ r, <["year" := Some (Qc_of_Z (ref_year self))]> r)
                    <$> filter (retained self) (sim_rows simulation_df)).
  { cbn [select_reference_slice with_year sim_rows].
    rewrite filter_fmap.
    rewrite (list_filter_iff _ (retained self))
      by apply in_reference_slice_add_year.
    apply list_fmap_ext.
    intros i r [Hret _]%list_elem_of_lookup_2%list_elem_of_filter.
    by apply add_year_retained. }
  split; [|split].
  - unfold load_simulation_output_data.
    rewrite (require_column_ok _ "time_period") by done.
    rewrite (require_column_ok _ "primary_id"); [done|].
    apply elem_of_set_column_name. by right.
  - done.
  - intros r Hr. rewrite Hrows, list_elem_of_fmap. split.
    + intros (r' & Heq & [Hret _]%list_elem_of_filter).
      by apply (retained_insert_year self r r' _ _ Heq).
    + intros Hret. exists r. split; [done|]. by apply list_elem_of_filter.
Qed.

(** The scenario of the specification: [init_year=2010], [ref_year=2015],
    [ref_primary_id=0]; of the two rows with [time_period=5], the one with
    [primary_id=0] is kept and the one with [primary_id=1] is not.  The rows
    of the years 2014 and 2016 and the row without [time_period] are not
    kept either. *)
Lemma load_simulation_output_data_retains_scenario :
  ("time_period" ∈ sim_columns ex_simulation_df_years
   ∧ "primary_id" ∈ sim_columns ex_simulation_df_years)
  ∧ ∃ out, load_simulation_output_data ex_self ex_simulation_df_years = Ok out
    ∧ sim_rows out = [ <["year" := num 2015]> ex_row_id0 ]
    ∧ <["year" := num 2015]> ex_row_id1 ∉ sim_rows out.
Proof.
  assert (H1 : "time_period" ∈ sim_columns ex_simulation_df_years)
    by compute_done.
  assert (H2 : "primary_id" ∈ sim_columns ex_simulation_df_years)
    by compute_done.
  split; [done|].
  destruct (load_simulation_output_data_retains ex_self
              ex_simulation_df_years H1 H2) as (out & Hout & Hrows & Hiff).
  exists out. split; [done|].
  assert (Hf : filter (retained ex_self) (sim_rows ex_simulation_df_years)
               = [ex_row_id0]) by compute_done.
  split; [by rewrite Hrows, Hf|].
  assert (Hin : ex_row_id1 ∈ sim_rows ex_simulation_df_years) by compute_done.
  rewrite (Hiff ex_row_id1 Hin). compute_done.
Defined.

(** ** Aggregator *)

Lemma missing_of_cons simulation_df row rows :
  missing_of simulation_df (row :: rows)
  = list_to_set (missing_in_row (list_to_set (sim_columns simulation_df))
                                (vars_of row))
    ∪ missing_of simulation_df rows.
Proof. unfold missing_of. by rewrite bind_cons, list_to_set_app_L. Qed.

Lemma aggregate_rows_ok simulation_df columns rows missing_variables :
  "Vars" ∈ columns →
  aggregate_rows simulation_df columns rows missing_variables
  = Ok (aug_of simulation_df <$> rows,
        missing_variables ∪ missing_of simulation_df rows).
Proof.
  intros HVars. revert missing_variables.
  induction rows as [|row rows IH]; intros missing_variables.
  - cbn. by rewrite (right_id_L ∅ (∪)).
  - cbn [aggregate_rows]. rewrite require_column_ok by done.
    cbn [mbind result_bind]. rewrite IH.
    by rewrite missing_of_cons, (assoc_L (∪)).
Qed.

Lemma aggregate_ok simulation_df mapping_df :
  "Vars" ∈ map_columns mapping_df →
  aggregate simulation_df mapping_df
  = Ok ({| aug_columns := set_column_name (map_columns mapping_df) "Simulation_Values";
           aug_rows := aug_of simulation_df <$> map_rows mapping_df |},
        missing_of simulation_df (map_rows mapping_df)).
Proof.
  intros HVars. unfold aggregate. rewrite aggregate_rows_ok.
  - cbn. by rewrite (left_id_L ∅ (∪)).
  - apply elem_of_set_column_name. by right.
Qed.

Lemma elem_of_missing_of simulation_df rows v :
  v ∈ missing_of simulation_df rows ↔
  ∃ row, row ∈ rows ∧ v ∈ vars_of row ∧ v ∉ sim_columns simulation_df.
Proof.
  unfold missing_of, missing_in_row.
  rewrite elem_of_list_to_set, list_elem_of_bind. split.
  - intros (row & Hv & Hrow). exists row.
    apply list_elem_of_filter in Hv as [Hv ?].
    rewrite elem_of_list_to_set in Hv. done.
  - intros (row & Hrow & Hv & Habs). exists row. split; [|done].
    apply list_elem_of_filter. by rewrite elem_of_list_to_set.
Qed.

Lemma filter_none {A} (P : A → Prop) `{!∀ x, Decision (P x)} (l : list A) :
  (∀ x, x ∈ l → ¬ P x) → filter P l = [].
Proof.
  induction l as [|a l IH]; intros Hl; [done|].
  rewrite filter_cons_False by (apply Hl; left).
  apply IH. intros x Hx. apply Hl. by right.
Qed.

Lemma occurrences_elem_of v (s : gset string) : v ∈ s → occurrences v s = 1%nat.
Proof.
  intros Hv. unfold occurrences.
  apply elem_of_elements in Hv. pose proof (NoDup_elements s) as Hnd.
  induction Hnd as [|x l Hx Hnd IH]; [by apply elem_of_nil in Hv|].
  rewrite filter_cons. destruct (decide (x = v)) as [->|Hne].
  - rewrite filter_none; [done|]. by intros y Hy ->.
  - apply IH. by apply elem_of_cons in Hv as [->|Hv].
Qed.

Lemma subsector_total_emissions_absent simulation_df vars_list :
  (∀ v, v ∈ vars_list → v ∉ sim_columns simulation_df) →
  subsector_total_emissions simulation_df
    (list_to_set (sim_columns simulation_df)) vars_list = 0%Qc.
Proof.
  intros Habs. unfold subsector_total_emissions, matching_columns.
  rewrite filter_none; [done|].
  intros v Hv. rewrite elem_of_list_to_set. by apply Habs.
Qed.

Lemma print_all_run lines w :
  print_all lines w
  = ({| files := files w; stdout := stdout w ++ lines |}, Ok tt).
Proof.
  revert w. induction lines as [|line lines IH]; intros w.
  - cbn. rewrite (right_id_L [] (++)). by destruct w.
  - cbn [print_all]. unfold mbind, IO_bind, print. rewrite IH. cbn.
    by rewrite <-(assoc_L (++)).
Qed.

Lemma print_missing_run `{PandasIO} missing_variables w :
  ∃ lines, print_missing missing_variables w
           = ({| files := files w; stdout := stdout w ++ lines |}, Ok tt).
Proof.
  unfold print_missing. case_decide.
  - by eexists [_].
  - eexists (_ :: _). unfold mbind, IO_bind, print.
    rewrite print_all_run. cbn. by rewrite <-(assoc_L (++)).
Qed.

Lemma calculate_ssp_emission_totals_run `{PandasIO} self simulation_df
    mapping_df w draft missing_variables :
  aggregate simulation_df mapping_df = Ok (draft, missing_variables) →
  ∃ lines,
    calculate_ssp_emission_totals self simulation_df mapping_df w
    = ({| files := files w; stdout := stdout w ++ lines |}, Ok draft).
Proof.
  intros Hagg. unfold calculate_ssp_emission_totals, lift, mbind, IO_bind.
  rewrite Hagg.
  destruct (print_missing_run missing_variables w) as [lines ->].
  by exists lines.
Qed.

(** C1. On a mapping table with a [Vars] column the Aggregator returns the
    table with one row per mapping row and writes no file; a row all of
    whose [Vars] entries are absent from the column names of the simulation
    slice (compared as exact strings) gets [Simulation_Values = 0], and each
    of its entries is in the set of missing variables, which lists it once
    however many rows name it. *)
Theorem aggregate_absent_vars `{PandasIO} (self : SectoralDiffReport)
    (simulation_df : SimFrame) (mapping_df : MappingFrame) (w : world) :
  "Vars" ∈ map_columns mapping_df →
  ∃ draft missing_variables,
    aggregate simulation_df mapping_df = Ok (draft, missing_variables)
    ∧ (calculate_ssp_emission_totals self simulation_df mapping_df w).2
      = Ok draft
    ∧ files (calculate_ssp_emission_totals self simulation_df mapping_df w).1
      = files w
    ∧ length (aug_rows draft) = length (map_rows mapping_df)
    ∧ ∀ index row,
        map_rows mapping_df !! index = Some row →
        (∀ v, v ∈ split ":" (text_cell row "Vars") →
              v ∉ sim_columns simulation_df) →
        aug_rows draft !! index
          = Some {| a_row := row; a_Simulation_Values := 0%Qc |}
        ∧ ∀ v, v ∈ split ":" (text_cell row "Vars") →
               v ∈ missing_variables ∧ occurrences v missing_variables = 1%nat.
Proof.
  intros HVars. eexists _, _. split; [by apply aggregate_ok|].
  destruct (calculate_ssp_emission_totals_run self simulation_df mapping_df w
              _ _ (aggregate_ok simulation_df mapping_df HVars)) as [lines ->].
  cbn [fst snd files aug_rows]. split_and!; [done|done|by rewrite length_fmap|].
  intros index row Hrow Habs. split.
  - rewrite list_lookup_fmap, Hrow. cbn. unfold aug_of. f_equal. f_equal.
    by apply subsector_total_emissions_absent.
  - intros v Hv.
    assert (v ∈ missing_of simulation_df (map_rows mapping_df)) as Hin.
    { apply elem_of_missing_of. exists row. split_and!; [|done|by apply Habs].
      by eapply list_elem_of_lookup_2. }
    split; [done|]. by apply occurrences_elem_of.
Qed.

(** On the example tables the names [co2_a] and [CH4] are not columns of
    the slice ([CO2_A] is): the third row gets 0, and [CH4], which the
    fourth row names again, is listed once. *)
Lemma aggregate_absent_vars_example :
  "Vars" ∈ map_columns ex_mapping_df
  ∧ ∃ draft missing_variables,
      aggregate ex_slice ex_mapping_df = Ok (draft, missing_variables)
      ∧ (a_Simulation_Values <$> aug_rows draft)
        = [Qc_of_Z 15; Qc_of_Z 10; 0%Qc; 0%Qc]
      ∧ occurrences "CH4" missing_variables = 1%nat
      ∧ elements missing_variables = ["co2_a"; "CH4"; "N2O"].
Proof.
  assert (HVars : "Vars" ∈ map_columns ex_mapping_df) by compute_done.
  split; [done|].
  destruct (@aggregate_absent_vars (ex_io elements) ex_self ex_slice
              ex_mapping_df (ex_world "mapping" "edgar") HVars)
    as (draft & missing_variables & Hagg & _).
  exists draft, missing_variables. split; [done|].
  rewrite aggregate_ok in Hagg by done. injection Hagg as <- <-.
  split_and!; compute_done.
Defined.

(** ** Sums and groups *)

Lemma Qc_sum_cons x l : Qc_sum (x :: l) = (x + Qc_sum l)%Qc.
Proof. done. Qed.

Lemma Qc_sum_fmap_zero {A} (l : list A) : Qc_sum ((λ _, 0%Qc) <$> l) = 0%Qc.
Proof.
  induction l as [|a l IH]; [done|].
  rewrite fmap_cons, Qc_sum_cons, IH. ring.
Qed.

Section groupby_facts.
Context {A K : Type} `{EqDecision K}.
Context (R : relation K) `{!RelDecision R}.
Context (key : A → K).

Lemma group_keys_perm rows :
  group_keys R key rows ≡ₚ remove_dups (key <$> rows).
Proof. apply merge_sort_Permutation. Qed.

Lemma NoDup_group_keys rows : NoDup (group_keys R key rows).
Proof. rewrite group_keys_perm. apply NoDup_remove_dups. Qed.

Lemma elem_of_group_keys rows k :
  k ∈ group_keys R key rows ↔ k ∈ key <$> rows.
Proof. rewrite group_keys_perm. apply elem_of_remove_dups. Qed.

Lemma groupby_sum_keys val rows :
  (groupby_sum R key val rows).*1 = group_keys R key rows.
Proof.
  unfold groupby_sum. rewrite <-list_fmap_compose.
  by rewrite list_fmap_id.
Qed.

End groupby_facts.

(** ** Detailed and subsector reports *)

Lemma generate_detailed_diff_report_ok self draft edgar_df :
  "Subsector" ∈ aug_columns draft →
  "Edgar_Class" ∈ aug_columns draft →
  generate_detailed_diff_report self draft edgar_df
  = Ok (detailed_row self
          <$> merge_left (groupby_sum pair_le subsector_class
                            a_Simulation_Values (aug_rows draft)) edgar_df).
Proof.
  intros HS HE. unfold generate_detailed_diff_report, detailed_diff_report_agg.
  by rewrite !require_column_ok.
Qed.

(** *** Arithmetic of the [diff] column *)

Lemma float64_overflow_pos : (0 < float64_overflow)%Qc.
Proof. by vm_compute. Qed.

Lemma float64_overflow_neg : (- float64_overflow < 0)%Qc.
Proof. by vm_compute. Qed.

Lemma to_float64_in_range q : in_float64_range q → to_float64 q = Fin q.
Proof.
  intros [Hlo Hhi]. unfold to_float64.
  rewrite decide_False by by apply Qclt_not_le.
  by rewrite decide_False by by apply Qclt_not_le.
Qed.

Lemma Qcminus_0_r (q : Qc) : (q - 0)%Qc = q.
Proof. ring. Qed.

(** Dividing by a reference of 0: not-a-number for the total 0, else the
    infinity that has the sign of the total. *)
Lemma relative_diff_zero_ref_eq (sim : Qc) :
  relative_diff (Fin sim) (Fin 0%Qc)
  = if decide (sim = 0%Qc) then NaN
    else if decide (0 < sim)%Qc then PInf else NInf.
Proof.
  pose proof float64_overflow_pos as Hpos.
  pose proof float64_overflow_neg as Hneg.
  unfold relative_diff, float_sub. rewrite Qcminus_0_r. unfold to_float64.
  destruct (decide (float64_overflow ≤ sim)%Qc) as [Hhi|Hhi].
  - assert (0 < sim)%Qc as Hsim by (by eapply Qclt_le_trans).
    cbn. rewrite decide_True by apply Qcle_refl.
    rewrite decide_False, decide_True; [done|done|].
    intros Heq. by apply (Qclt_not_eq _ _ Hsim).
  - destruct (decide (sim ≤ - float64_overflow)%Qc) as [Hlo|Hlo].
    + assert (sim < 0)%Qc as Hsim by (by eapply Qcle_lt_trans).
      cbn. rewrite decide_True by apply Qcle_refl.
      rewrite decide_False, decide_False; [done| |].
      * intros H0. by apply (Qclt_not_eq _ _ (Qclt_trans _ _ _ H0 Hsim)).
      * by apply Qclt_not_eq.
    + cbn. by rewrite decide_True by done.
Qed.

(** Dividing by a reference of 0 gives an infinity or not-a-number. *)
Lemma relative_diff_zero_ref (sim : Qc) :
  is_undefined (relative_diff (Fin sim) (Fin 0%Qc)).
Proof. rewrite relative_diff_zero_ref_eq. by repeat case_decide. Qed.

Lemma is_undefined_not_zero x : is_undefined x → x ≠ Fin 0%Qc.
Proof. by intros Hx ->. Qed.

(** Dividing by another reference, within the range of float64. *)
Lemma relative_diff_defined (sim ref : Qc) :
  ref ≠ 0%Qc →
  in_float64_range (sim - ref) →
  in_float64_range ((sim - ref) / ref) →
  relative_diff (Fin sim) (Fin ref) = Fin ((sim - ref) / ref)%Qc.
Proof.
  intros Href Hsub Hdiv. unfold relative_diff, float_sub.
  rewrite (to_float64_in_range _ Hsub). cbn.
  rewrite decide_False by done. by apply to_float64_in_range.
Qed.

Lemma relative_diff_NaN (sim : float64) : relative_diff sim NaN = NaN.
Proof. by destruct sim. Qed.

(** *** The Subsector Diff Builder on the two dtypes *)

Lemma generate_subsector_diff_report_float64 self detailed :
  generate_subsector_diff_report self float64_dtype detailed
  = Ok (subsector_row self detailed <$> group_keys string_le d_Subsector detailed).
Proof. done. Qed.

Lemma generate_subsector_diff_report_object self detailed :
  generate_subsector_diff_report self object_dtype detailed
  = let report :=
      subsector_row self detailed <$> group_keys string_le d_Subsector detailed in
    if decide (Exists (λ s, s_Edgar_Values s = 0%Qc) report)
    then Err ZeroDivisionError else Ok report.
Proof.
  unfold generate_subsector_diff_report, python_division. cbn zeta.
  by case_decide.
Qed.

Lemma generate_subsector_diff_report_inv self dt detailed report :
  generate_subsector_diff_report self dt detailed = Ok report →
  report
  = subsector_row self detailed <$> group_keys string_le d_Subsector detailed.
Proof.
  destruct dt.
  - rewrite generate_subsector_diff_report_float64. by intros [= <-].
  - rewrite generate_subsector_diff_report_object. cbn zeta.
    case_decide; [done|]. by intros [= <-].
Qed.



(** With a reference value of 0 for both classes of the example the
    detailed diffs are not-a-number (0/0) and plus infinity (25/0), and the
    subsector diff is plus infinity. *)
Lemma diff_with_zero_reference :
  ∃ detailed report,
    generate_detailed_diff_report ex_self ex_draft ex_ref_zero = Ok detailed
    ∧ generate_subsector_diff_report ex_self float64_dtype detailed = Ok report
    ∧ d_diff <$> detailed = [NaN; PInf]
    ∧ s_diff <$> report = [PInf].
Proof.
  eexists _, _.
  split; [apply generate_detailed_diff_report_ok; compute_done|].
  split; [apply generate_subsector_diff_report_float64|].
  split; compute_done.
Qed.

(** ** The left join *)

Lemma left_matches_fst edgar_df l m : m ∈ left_matches edgar_df l → m.1 = l.
Proof.
  unfold left_matches. destruct (matches edgar_df l.1.2) as [|e ms].
  - by intros ->%list_elem_of_singleton.
  - by intros (e' & -> & _)%list_elem_of_fmap.
Qed.

Lemma length_left_matches edgar_df l :
  length (left_matches edgar_df l)
  = Nat.max 1 (length (matches edgar_df l.1.2)).
Proof.
  unfold left_matches. destruct (matches edgar_df l.1.2) as [|e ms]; [done|].
  by rewrite length_fmap.
Qed.

Lemma left_matches_unmatched edgar_df l :
  matches edgar_df l.1.2 = [] → left_matches edgar_df l = [(l, None)].
Proof. unfold left_matches. by intros ->. Qed.

Lemma filter_all {A} (P : A → Prop) `{!∀ x, Decision (P x)} (l : list A) :
  (∀ x, x ∈ l → P x) → filter P l = l.
Proof.
  induction l as [|a l IH]; intros Hl; [done|].
  rewrite filter_cons_True by (apply Hl; left).
  f_equal. apply IH. intros x Hx. apply Hl. by right.
Qed.

(** Selecting by the source commutes with a bind whose results remember
    their source. *)
Lemma filter_bind_source {A B} (g : A → list B) (Q : B → Prop) (P : A → Prop)
    `{!∀ b, Decision (Q b), !∀ a, Decision (P a)} (l : list A) :
  (∀ a b, b ∈ g a → Q b ↔ P a) →
  filter Q (l ≫= g) = filter P l ≫= g.
Proof.
  intros Hsrc. induction l as [|a l IH]; [done|].
  rewrite bind_cons, list.filter_app, IH, filter_cons.
  destruct (decide (P a)) as [HP|HP].
  - rewrite bind_cons. f_equal. apply filter_all.
    intros b Hb. by apply (Hsrc a b Hb).
  - rewrite filter_none; [done|].
    intros b Hb. by rewrite (Hsrc a b Hb).
Qed.

Lemma filter_eq_NoDup {K} `{EqDecision K} (k : K) (ks : list K) :
  NoDup ks → filter (λ x, x = k) ks = if decide (k ∈ ks) then [k] else [].
Proof.
  induction 1 as [|x ks Hx Hnd IH]; [done|].
  rewrite filter_cons, IH. destruct (decide (x = k)) as [->|Hne].
  - rewrite decide_False by done. by rewrite decide_True by left.
  - destruct (decide (k ∈ ks)) as [Hin|Hnin].
    + by rewrite decide_True by (by right).
    + rewrite decide_False; [done|].
      intros [?|?]%elem_of_cons; [congruence|done].
Qed.

(** The rows of the detailed report for one pair. *)
Lemma rows_for_detailed self rows edgar_df p :
  rows_for p
    (detailed_row self
       <$> merge_left (groupby_sum pair_le subsector_class
                         a_Simulation_Values rows) edgar_df)
  = if decide (p ∈ subsector_class <$> rows) then
      detailed_row self
        <$> left_matches edgar_df
              (p, group_total subsector_class a_Simulation_Values rows p)
    else [].
Proof.
  unfold rows_for, merge_left. rewrite filter_fmap.
  rewrite (list_filter_iff _ (λ m, m.1.1 = p)); last first.
  { intros [[[s c] v] e]. done. }
  rewrite (filter_bind_source (left_matches edgar_df) _
             (λ l : string * string * Qc, l.1 = p))
    by (by intros l m ->%left_matches_fst).
  unfold groupby_sum. rewrite filter_fmap. cbn [fst].
  rewrite filter_eq_NoDup by apply NoDup_group_keys.
  destruct (decide (p ∈ subsector_class <$> rows)) as [Hin|Hnin].
  - rewrite decide_True by by apply elem_of_group_keys.
    cbn. by rewrite (right_id_L [] (++)).
  - by rewrite decide_False by by rewrite elem_of_group_keys.
Qed.

(** C4, as the code has it.  The detailed report has rows for exactly the
    (Subsector, Edgar_Class) pairs of the mapping.  A pair has as many rows
    as the reference table has rows of its class, and one row when it has
    none: so one row per pair when no class occurs twice in the reference
    table.  The row of a pair without a match carries no [Edgar_Values] and a
    not-a-number [diff]. *)
Theorem detailed_report_rows (self : SectoralDiffReport) (draft : AugFrame)
    (edgar_df : list RefRow) :
  "Subsector" ∈ aug_columns draft →
  "Edgar_Class" ∈ aug_columns draft →
  ∃ report,
    generate_detailed_diff_report self draft edgar_df = Ok report
    ∧ ∀ p,
        (p ∉ subsector_class <$> aug_rows draft → rows_for p report = [])
        ∧ (p ∈ subsector_class <$> aug_rows draft →
           length (rows_for p report)
           = Nat.max 1 (length (matches edgar_df p.2))
           ∧ (length (matches edgar_df p.2) ≤ 1 →
              length (rows_for p report) = 1)%nat
           ∧ (matches edgar_df p.2 = [] →
              rows_for p report
              = [ {| d_Year := ref_year self;
                     d_Subsector := p.1;
                     d_Edgar_Class := p.2;
                     d_Simulation_Values :=
                       group_total subsector_class a_Simulation_Values
                         (aug_rows draft) p;
                     d_Edgar_Values := None;
                     d_diff := NaN |} ])).
Proof.
  intros HS HE. eexists. split; [by apply generate_detailed_diff_report_ok|].
  intros p. rewrite rows_for_detailed. split.
  - intros Hnin. by rewrite decide_False.
  - intros Hin. rewrite decide_True by done.
    rewrite length_fmap, length_left_matches. cbn [fst snd].
    split_and!; [done|lia|].
    intros Hnone. by rewrite left_matches_unmatched.
Qed.

(** On the example: the pair without a reference row is kept, with nothing
    in [Edgar_Values]; the pair with one reference row has one row. *)
Lemma detailed_report_rows_example :
  ("Subsector" ∈ aug_columns ex_draft ∧ "Edgar_Class" ∈ aug_columns ex_draft)
  ∧ ∃ report,
      generate_detailed_diff_report ex_self ex_draft ex_ref = Ok report
      ∧ (d_Edgar_Class <$> report) = ["Energy:CH4"; "Energy:CO2"]
      ∧ (d_Edgar_Values <$> report) = [None; num 20].
Proof.
  assert (HS : "Subsector" ∈ aug_columns ex_draft) by compute_done.
  assert (HE : "Edgar_Class" ∈ aug_columns ex_draft) by compute_done.
  split; [done|].
  destruct (detailed_report_rows ex_self ex_draft ex_ref HS HE)
    as (report & Hgen & _).
  exists report. split; [done|].
  rewrite generate_detailed_diff_report_ok in Hgen by done.
  injection Hgen as <-. split; compute_done.
Defined.

(** C4 as stated fails: with the class [Energy:CO2] twice in the reference
    table, the pair (Energy, Energy:CO2) has two rows in the report. *)
Lemma detailed_report_two_rows_for_one_pair :
  ∃ report,
    generate_detailed_diff_report ex_self ex_draft ex_ref_twice = Ok report
    ∧ ("Energy", "Energy:CO2") ∈ subsector_class <$> aug_rows ex_draft
    ∧ length (rows_for ("Energy", "Energy:CO2") report) = 2%nat
    ∧ length (rows_for ("Energy", "Energy:CO2") report) ≠ 1%nat
    ∧ (d_Edgar_Values <$> rows_for ("Energy", "Energy:CO2") report)
      = [num 20; num 5].
Proof.
  eexists. split; [apply generate_detailed_diff_report_ok; compute_done|].
  split_and!; compute_done.
Qed.

(** ** Roll-up through the two builders *)

Lemma groupby_sum_fmap {A B K} `{EqDecision K} (R : relation K)
    `{!RelDecision R} (f : A → B) (key : B → K) (val : B → Qc) (l : list A) :
  groupby_sum R key val (f <$> l) = groupby_sum R (key ∘ f) (val ∘ f) l.
Proof.
  unfold groupby_sum, group_keys, group_total, group.
  rewrite <-list_fmap_compose. apply list_fmap_ext. intros _ k _.
  by rewrite filter_fmap, <-list_fmap_compose.
Qed.

(** With at most one reference row per class the join keeps the grouped
    rows as they are. *)
Lemma merge_left_at_most_one agg edgar_df :
  (∀ class, length (matches edgar_df class) ≤ 1)%nat →
  (merge_left agg edgar_df).*1 = agg.
Proof.
  intros Hone. unfold merge_left.
  induction agg as [|l agg IH]; [done|].
  rewrite bind_cons, fmap_app, IH. unfold left_matches.
  specialize (Hone l.1.2).
  destruct (matches edgar_df l.1.2) as [|e [|e' ms]]; [done|done|].
  cbn in Hone. lia.
Qed.

(** *** The roll-up for any sum *)

Lemma filter_iff_in {A} (P Q : A → Prop) `{!∀ x, Decision (P x)}
    `{!∀ x, Decision (Q x)} (l : list A) :
  (∀ x, x ∈ l → P x ↔ Q x) → filter P l = filter Q l.
Proof.
  induction l as [|a l IH]; intros Hl; [done|].
  rewrite !filter_cons, IH by (intros x Hx; apply Hl; by right).
  destruct (decide (P a)) as [HP|HP], (decide (Q a)) as [HQ|HQ];
    try done; exfalso; apply (Hl a) in HP || apply (Hl a) in HQ;
    done || left.
Qed.

(** Selecting by one of two properties that exclude each other. *)
Lemma filter_or_Permutation {A} (P Q : A → Prop) `{!∀ x, Decision (P x)}
    `{!∀ x, Decision (Q x)} (l : list A) :
  (∀ x, P x → Q x → False) →
  filter (λ x, P x ∨ Q x) l ≡ₚ filter P l ++ filter Q l.
Proof.
  intros Hdisj. induction l as [|a l IH]; [done|].
  rewrite !filter_cons.
  destruct (decide (P a)) as [HP|HP], (decide (Q a)) as [HQ|HQ].
  - by destruct (Hdisj a).
  - rewrite decide_True by by left. cbn. by rewrite IH.
  - rewrite decide_True by by right. rewrite IH.
    apply Permutation_middle.
  - rewrite decide_False by tauto. done.
Qed.

Section groupby_with_facts.
Context {A K V : Type} `{EqDecision K}.
Context (R : relation K) `{!RelDecision R}.
Context (key : A → K) (sum : list V → V) (val : A → V).

Lemma elem_of_groupby_sum_with rows k v :
  (k, v) ∈ groupby_sum_with R key sum val rows ↔
  k ∈ key <$> rows ∧ v = sum (val <$> group key rows k).
Proof.
  unfold groupby_sum_with. rewrite list_elem_of_fmap.
  setoid_rewrite elem_of_group_keys. split.
  - intros (k' & [= -> ->] & Hk). done.
  - intros [Hk ->]. by exists k.
Qed.

Lemma groupby_sum_with_keys rows :
  (groupby_sum_with R key sum val rows).*1 = group_keys R key rows.
Proof.
  unfold groupby_sum_with. rewrite <-list_fmap_compose.
  by rewrite list_fmap_id.
Qed.

(** The groups of different keys, one after the other, are the rows that
    have one of the keys. *)
Lemma concat_group_Permutation (ks : list K) rows :
  NoDup ks →
  concat (group key rows <$> ks) ≡ₚ filter (λ r, key r ∈ ks) rows.
Proof.
  induction 1 as [|k ks Hk Hnd IH].
  - cbn. rewrite filter_none; [done|]. intros r _. apply not_elem_of_nil.
  - cbn [fmap list_fmap concat]. rewrite IH. unfold group.
    rewrite <-filter_or_Permutation by (intros r <- ?; done).
    erewrite list_filter_iff; [done|]. intros r. cbn.
    rewrite elem_of_cons. done.
Qed.

Lemma concat_fmap_fmap {B} (g : K → list A) (f : A → B) (ks : list K) :
  concat ((λ k, f <$> g k) <$> ks) = f <$> concat (g <$> ks).
Proof.
  induction ks as [|k ks IH]; [done|]. cbn. by rewrite IH, fmap_app.
Qed.

(** With a sum that depends neither on the order of its terms nor on
    their grouping, summing the group totals of the keys that a function [f]
    sends to [s] is summing the rows whose key [f] sends to [s]. *)
Lemma group_totals_rollup_with {L} `{EqDecision L} (f : K → L) rows s :
  (∀ l1 l2, l1 ≡ₚ l2 → sum l1 = sum l2) →
  (∀ ls, sum (sum <$> ls) = sum (concat ls)) →
  sum ((λ k, sum (val <$> group key rows k))
       <$> filter (λ k, f k = s) (group_keys R key rows))
  = sum (val <$> filter (λ r, f (key r) = s) rows).
Proof.
  intros Hperm Hconcat.
  transitivity
    (sum (sum <$> ((λ k, val <$> group key rows k)
                   <$> filter (λ k, f k = s) (group_keys R key rows)))).
  { by rewrite <-list_fmap_compose. }
  rewrite Hconcat, concat_fmap_fmap.
  apply Hperm, fmap_Permutation.
  rewrite concat_group_Permutation
    by apply list.NoDup_filter, NoDup_group_keys.
  erewrite filter_iff_in; [done|]. intros r Hr. cbn.
  rewrite list_elem_of_filter, elem_of_group_keys.
  split; [tauto|]. intros Hs. split; [done|]. by apply list_elem_of_fmap_2.
Qed.
End groupby_with_facts.

(** On exact numbers the two conditions hold. *)
Lemma Qc_sum_app l1 l2 : Qc_sum (l1 ++ l2) = (Qc_sum l1 + Qc_sum l2)%Qc.
Proof.
  induction l1 as [|x l1 IH].
  - rewrite app_nil_l. change (Qc_sum []) with 0%Qc. ring.
  - rewrite <-app_comm_cons, !Qc_sum_cons, IH. ring.
Qed.

Lemma Qc_sum_Permutation l1 l2 : l1 ≡ₚ l2 → Qc_sum l1 = Qc_sum l2.
Proof.
  induction 1 as [|x l1 l2 _ IH|x y l|l1 l2 l3 _ IH1 _ IH2].
  - done.
  - by rewrite !Qc_sum_cons, IH.
  - rewrite !Qc_sum_cons. ring.
  - by rewrite IH1.
Qed.

Lemma Qc_sum_concat ls : Qc_sum (Qc_sum <$> ls) = Qc_sum (concat ls).
Proof.
  induction ls as [|l ls IH]; [done|].
  cbn [fmap list_fmap concat]. by rewrite Qc_sum_cons, Qc_sum_app, IH.
Qed.

(** The groupings of the two builders are the roll-up on exact numbers. *)
Lemma groupby_sum_is_with {A K} `{EqDecision K} (R : relation K)
    `{!RelDecision R} (key : A → K) (val : A → Qc) (rows : list A) :
  groupby_sum R key val rows = groupby_sum_with R key Qc_sum val rows.
Proof. done. Qed.

(** With at most one reference row per class the subsector report of the
    two builders carries the two-level roll-up of the mapping rows. *)
Lemma subsector_simulation_values_rollup self rows edgar_df dt report :
  (∀ class, length (matches edgar_df class) ≤ 1)%nat →
  generate_subsector_diff_report self dt
    (detailed_row self
       <$> merge_left (groupby_sum pair_le subsector_class
                         a_Simulation_Values rows) edgar_df)
  = Ok report →
  subsector_simulation_values report
  = rollup_two_level Qc_sum subsector_class a_Simulation_Values rows.
Proof.
  intros Hone ->%generate_subsector_diff_report_inv.
  unfold subsector_simulation_values.
  rewrite <-list_fmap_compose.
  change (groupby_sum string_le d_Subsector d_Simulation_Values
            (detailed_row self
               <$> merge_left (groupby_sum pair_le subsector_class
                                 a_Simulation_Values rows) edgar_df)
          = groupby_sum string_le (λ g : string * string * Qc, g.1.1) snd
              (groupby_sum pair_le subsector_class a_Simulation_Values rows)).
  rewrite groupby_sum_fmap.
  rewrite <-(merge_left_at_most_one
               (groupby_sum pair_le subsector_class a_Simulation_Values rows)
               edgar_df Hone) at 2.
  by rewrite groupby_sum_fmap.
Qed.




(** ** Missing reference values at subsector level *)

Lemma group_zero_fill detailed s :
  group d_Subsector (zero_fill <$> detailed) s
  = zero_fill <$> group d_Subsector detailed s.
Proof. unfold group. by rewrite filter_fmap. Qed.

Lemma nansum_zero_fill (l : list DetailedDiffRow) :
  nansum (d_Edgar_Values <$> (zero_fill <$> l)) = nansum (d_Edgar_Values <$> l).
Proof.
  unfold nansum. rewrite <-!list_fmap_compose. f_equal.
Qed.

Lemma subsector_rows_zero_fill self detailed :
  subsector_row self (zero_fill <$> detailed)
    <$> group_keys string_le d_Subsector (zero_fill <$> detailed)
  = subsector_row self detailed <$> group_keys string_le d_Subsector detailed.
Proof.
  assert (Hkeys : group_keys string_le d_Subsector (zero_fill <$> detailed)
                  = group_keys string_le d_Subsector detailed).
  { unfold group_keys. by rewrite <-list_fmap_compose. }
  rewrite Hkeys. apply list_fmap_ext. intros _ s _.
  unfold subsector_row, group_total.
  rewrite !group_zero_fill, nansum_zero_fill, <-list_fmap_compose.
  done.
Qed.


(** ** The pipeline and the outside world *)

(** The result of a run is determined by the simulation table and the
    contents of the two input files. *)
Lemma generate_diff_reports_result `{PandasIO} self simulation_df w :
  (generate_diff_reports self simulation_df w).2
  = reports_of self simulation_df
      (files w !! mapping_table_path self) (files w !! edga_file_path self).
Proof.
  unfold generate_diff_reports, reports_of, load_mapping_table, edgar_data_etl,
    calculate_ssp_emission_totals, read_csv, lift.
  unfold mbind, IO_bind, result_bind, mret, IO_ret. cbn [fst snd].
  destruct (parse_file parse_mapping _ _) as [mapping_df|]; [|done].
  destruct (load_simulation_output_data _ _) as [slice|]; [|done].
  destruct (parse_file parse_edgar _ _) as [edgar_df|]; [|done].
  destruct (edgar_long _ _) as [edgar|]; [|done].
  destruct (aggregate _ _) as [[draft missing_variables]|]; [|done].
  destruct (print_missing_run missing_variables w) as [lines ->].
  cbn [fst]. destruct (generate_detailed_diff_report _ _ _); [|done].
  by destruct (generate_subsector_diff_report _ _ _).
Qed.

(** The files after a run: the two reports are written when the run
    succeeds, and nothing is written when it raises. *)
Lemma generate_diff_reports_files `{PandasIO} self simulation_df w :
  files (generate_diff_reports self simulation_df w).1
  = match (generate_diff_reports self simulation_df w).2 with
    | Ok (detailed, subsector) =>
        <[subsector_report_path self := render_subsector subsector]>
          (<[detailed_report_path self := render_detailed detailed]> (files w))
    | Err _ => files w
    end.
Proof.
  unfold generate_diff_reports, load_mapping_table, edgar_data_etl,
    calculate_ssp_emission_totals, read_csv, lift.
  unfold mbind, IO_bind, result_bind, mret, IO_ret. cbn [fst snd].
  destruct (parse_file parse_mapping _ _) as [mapping_df|]; [|done].
  destruct (load_simulation_output_data _ _) as [slice|]; [|done].
  destruct (parse_file parse_edgar _ _) as [edgar_df|]; [|done].
  destruct (edgar_long _ _) as [edgar|]; [|done].
  destruct (aggregate _ _) as [[draft missing_variables]|]; [|done].
  destruct (print_missing_run missing_variables w) as [lines ->].
  destruct (generate_detailed_diff_report _ _ _); [|done].
  by destruct (generate_subsector_diff_report _ _ _).
Qed.


Lemma parse_file_ok {A} (parse : string → option A) path bytes df :
  parse_file parse path bytes = Ok df ↔
  ∃ b, bytes = Some b ∧ parse b = Some df.
Proof.
  unfold parse_file. destruct bytes as [b|].
  - destruct (parse b) as [df'|] eqn:Hp.
    + split; [intros [= ->]; by exists b|]. intros (b' & [= <-] & Hp').
      congruence.
    + split; [done|]. intros (b' & [= <-] & Hp'). congruence.
  - split; [done|]. by intros (b' & [=] & _).
Qed.

Lemma parse_file_err {A} (parse : string → option A) path bytes e :
  parse_file parse path bytes = Err e ↔
  (bytes = None ∧ e = FileNotFoundError path)
  ∨ (∃ b, bytes = Some b ∧ parse b = None ∧ e = ParserError path).
Proof.
  unfold parse_file. destruct bytes as [b|].
  - destruct (parse b) as [df'|] eqn:Hp.
    + split; [done|]. intros [[[=] _]|(b' & [= <-] & Hp' & _)]. congruence.
    + split.
      * intros [= <-]. right. by exists b.
      * intros [[[=] _]|(b' & [= <-] & _ & ->)]. done.
  - split.
    + intros [= <-]. by left.
    + intros [[_ ->]|(b' & [=] & _)]. done.
Qed.

(** C7, as the code has it.  The Mapping Loader raises exactly when the
    mapping file is missing ([FileNotFoundError]) or its bytes do not parse
    ([ParserError]); a file that parses is returned as parsed, whatever its
    columns, and the loader writes nothing. *)
Theorem load_mapping_table_fails_iff `{PandasIO} (self : SectoralDiffReport)
    (w : world) :
  (load_mapping_table self w).1 = w
  ∧ (∀ e, (load_mapping_table self w).2 = Err e ↔
       (files w !! mapping_table_path self = None
        ∧ e = FileNotFoundError (mapping_table_path self))
       ∨ (∃ bytes, files w !! mapping_table_path self = Some bytes
                   ∧ parse_mapping bytes = None
                   ∧ e = ParserError (mapping_table_path self)))
  ∧ (∀ mapping_df, (load_mapping_table self w).2 = Ok mapping_df ↔
       ∃ bytes, files w !! mapping_table_path self = Some bytes
                ∧ parse_mapping bytes = Some mapping_df).
Proof.
  unfold load_mapping_table, read_csv. cbn [fst snd]. split_and!.
  - done.
  - intros e. apply parse_file_err.
  - intros df. apply parse_file_ok.
Qed.

(** C7 as stated fails: a mapping file without the column [Sector] is
    loaded, and the whole pipeline runs on it and writes its reports. *)
Lemma load_mapping_table_without_Sector :
  let w := ex_world "mapping without Sector" "edgar" in
  ∃ mapping_df reports,
    @load_mapping_table (ex_io elements) ex_self w = (w, Ok mapping_df)
    ∧ ("Sector" ∉ map_columns mapping_df)
    ∧ (@generate_diff_reports (ex_io elements) ex_self ex_simulation_df w).2
      = Ok reports.
Proof.
  eexists _, _. split_and!.
  - vm_compute. reflexivity.
  - compute_done.
  - vm_compute. reflexivity.
Qed.

(** ** A reference file without the column of the reference year *)

Lemma str_not_Edgar_Class n : str n ≠ "Edgar_Class".
Proof.
  unfold str, NilZero.string_of_int.
  destruct (Z.to_int n) as [d|d]; [|done].
  by destruct d.
Qed.

Lemma require_no_column_ok columns c :
  c ∉ columns → require_no_column columns c = Ok tt.
Proof. intros. unfold require_no_column. by rewrite decide_False. Qed.

Lemma require_no_column_err columns c :
  c ∈ columns → require_no_column columns c = Err ValueError.
Proof. intros. unfold require_no_column. by rewrite decide_True. Qed.

Lemma Edgar_Values_set_column_name columns :
  "Edgar_Values" ∈ set_column_name columns "Edgar_Class"
  ↔ "Edgar_Values" ∈ columns.
Proof. rewrite elem_of_set_column_name. split; [by intros [?|?]|by right]. Qed.

Lemma edgar_long_no_year self edgar_df :
  str (ref_year self) ∉ edgar_columns edgar_df →
  ∃ e, edgar_long self edgar_df = Err e
       ∧ ("Code" ∈ edgar_columns edgar_df →
          "CSC Subsector" ∈ edgar_columns edgar_df →
          "Gas" ∈ edgar_columns edgar_df →
          e = if decide ("Edgar_Values" ∈ edgar_columns edgar_df)
              then ValueError else KeyError (str (ref_year self))).
Proof.
  intros Hyear. unfold edgar_long.
  assert (Hy : str (ref_year self)
               ∉ set_column_name (edgar_columns edgar_df) "Edgar_Class").
  { rewrite elem_of_set_column_name. intros [?|?]; [|done].
    by eapply str_not_Edgar_Class. }
  assert (HE : "Edgar_Class"
               ∈ set_column_name (edgar_columns edgar_df) "Edgar_Class").
  { apply elem_of_set_column_name. by left. }
  rewrite (require_column_ok _ "Edgar_Class") by done.
  rewrite (require_column_err _ (str (ref_year self))) by done.
  destruct (decide ("Edgar_Values" ∈ edgar_columns edgar_df)) as [HV|HV].
  - rewrite require_no_column_err by by apply Edgar_Values_set_column_name.
    unfold require_column. repeat case_decide; cbn; by eexists.
  - rewrite require_no_column_ok by by rewrite Edgar_Values_set_column_name.
    unfold require_column. repeat case_decide; cbn; by eexists.
Qed.

(** C6. When the reference file has no column named [str(ref_year)] the
    pipeline raises and leaves every file as it was: no report is written.
    When the mapping table loads and the simulation table and the other
    columns of the reference file are in order, the exception is the
    [KeyError] for that column; only a file that has a column named
    [Edgar_Values] already is refused by [melt] with its [ValueError]
    before the year column is looked for. *)
Theorem missing_year_column_aborts `{PandasIO} (self : SectoralDiffReport)
    (simulation_df : SimFrame) (w : world) (bytes : string)
    (edgar_df : EdgarFrame) :
  files w !! edga_file_path self = Some bytes →
  parse_edgar bytes = Some edgar_df →
  str (ref_year self) ∉ edgar_columns edgar_df →
  ∃ e,
    (generate_diff_reports self simulation_df w).2 = Err e
    ∧ files (generate_diff_reports self simulation_df w).1 = files w
    ∧ (is_ok (load_mapping_table self w).2 →
       is_ok (load_simulation_output_data self simulation_df) →
       "Code" ∈ edgar_columns edgar_df →
       "CSC Subsector" ∈ edgar_columns edgar_df →
       "Gas" ∈ edgar_columns edgar_df →
       e = if decide ("Edgar_Values" ∈ edgar_columns edgar_df)
           then ValueError else KeyError (str (ref_year self))).
Proof.
  intros Hfile Hparse Hyear.
  destruct (edgar_long_no_year self edgar_df Hyear) as (e0 & Hlong & He0).
  assert (∃ e, reports_of self simulation_df
                 (files w !! mapping_table_path self)
                 (files w !! edga_file_path self) = Err e
               ∧ (is_ok (load_mapping_table self w).2 →
                  is_ok (load_simulation_output_data self simulation_df) →
                  e = e0)) as (e & Hrep & He).
  { unfold reports_of, load_mapping_table, read_csv. cbn [snd].
    rewrite Hfile. cbn [parse_file]. rewrite Hparse.
    destruct (parse_file parse_mapping _ _) as [mapping_df|e1];
      [|by exists e1].
    destruct (load_simulation_output_data _ _) as [slice|e2];
      [|by exists e2].
    cbn. rewrite Hlong. by exists e0. }
  exists e. split_and!.
  - by rewrite generate_diff_reports_result.
  - rewrite generate_diff_reports_files, generate_diff_reports_result.
    by rewrite Hrep.
  - intros Hm Hs HC HS HG. rewrite (He Hm Hs). by apply He0.
Qed.

(** The scenario of the specification: [ref_year=2015] and a reference
    file whose year column is ["2014"]. *)
Lemma missing_year_column_aborts_scenario :
  let w := ex_world "mapping" "edgar without 2015" in
  let run := @generate_diff_reports (ex_io elements) ex_self ex_simulation_df w in
  (files w !! edga_file_path ex_self = Some "edgar without 2015"
   ∧ @parse_edgar (ex_io elements) "edgar without 2015" = Some ex_edgar_df_no_year
   ∧ str (ref_year ex_self) ∉ edgar_columns ex_edgar_df_no_year)
  ∧ run.2 = Err (KeyError "2015")
  ∧ files run.1 = files w.
Proof.
  intros w run.
  assert (H1 : files w !! edga_file_path ex_self = Some "edgar without 2015")
    by (vm_compute; reflexivity).
  assert (H2 : @parse_edgar (ex_io elements) "edgar without 2015"
               = Some ex_edgar_df_no_year) by reflexivity.
  assert (H3 : str (ref_year ex_self) ∉ edgar_columns ex_edgar_df_no_year)
    by compute_done.
  split; [done|].
  destruct (@missing_year_column_aborts (ex_io elements) ex_self
              ex_simulation_df w _ _ H1 H2 H3) as (e & Hrun & Hfiles & He).
  split; [|done]. fold run in Hrun. rewrite Hrun. f_equal.
  rewrite He; [done | vm_compute; exact I | vm_compute; exact I
              | compute_done..].
Defined.

(** ** Determinism *)

(** C9. Two runs on the same simulation table give the same result (the
    same two reports, or the same exception) and write the same two files
    whenever the mapping file and the reference file hold the same bytes in
    both: nothing else in the file system matters, nor does the order in
    which the Python process iterates its sets. *)
Theorem generate_diff_reports_deterministic (io : PandasIO)
    (order1 order2 : gset string → list string) (self : SectoralDiffReport)
    (simulation_df : SimFrame) (w1 w2 : world) :
  files w1 !! mapping_table_path self = files w2 !! mapping_table_path self →
  files w1 !! edga_file_path self = files w2 !! edga_file_path self →
  let run1 := @generate_diff_reports (with_set_iter io order1) self simulation_df w1 in
  let run2 := @generate_diff_reports (with_set_iter io order2) self simulation_df w2 in
  run1.2 = run2.2
  ∧ ∀ reports, run1.2 = Ok reports →
      files run1.1 !! detailed_report_path self
      = files run2.1 !! detailed_report_path self
      ∧ files run1.1 !! subsector_report_path self
        = files run2.1 !! subsector_report_path self.
Proof.
  intros Hm He run1 run2.
  assert (Hres : run1.2 = run2.2).
  { unfold run1, run2. rewrite !generate_diff_reports_result, Hm, He. done. }
  split; [done|]. intros [detailed subsector] Hok.
  unfold run1, run2. rewrite !generate_diff_reports_files.
  fold run1 run2. rewrite <-Hres, Hok. cbn [render_detailed render_subsector with_set_iter].
  split.
  - destruct (decide (subsector_report_path self = detailed_report_path self))
      as [Heq|Hne].
    + by rewrite Heq, !lookup_insert_eq.
    + by rewrite !(lookup_insert_ne _ (subsector_report_path self)),
        !lookup_insert_eq.
  - by rewrite !lookup_insert_eq.
Qed.

(** Two runs of the example: the second finds stale reports and another
    file in the directory, and iterates its sets in the opposite order.
    The reports are the same; what differs is the order of the printed
    diagnostic. *)
Lemma generate_diff_reports_deterministic_example :
  let w1 := ex_world "mapping" "edgar" in
  let w2 := {| files := <["misc/detailed_diff_report_all-sectors.csv" := "stale"]>
                         (<["misc/notes.txt" := "notes"]> (files w1));
               stdout := ["earlier output"] |} in
  let run1 := @generate_diff_reports
                (with_set_iter (ex_io elements) elements) ex_self ex_simulation_df w1 in
  let run2 := @generate_diff_reports
                (with_set_iter (ex_io elements) (reverse ∘ elements))
                ex_self ex_simulation_df w2 in
  (files w1 !! mapping_table_path ex_self = files w2 !! mapping_table_path ex_self
   ∧ files w1 !! edga_file_path ex_self = files w2 !! edga_file_path ex_self)
  ∧ run1.2 = run2.2
  ∧ is_ok run1.2
  ∧ stdout run1.1 ≠ drop 1 (stdout run2.1).
Proof.
  intros w1 w2 run1 run2.
  assert (H1 : files w1 !! mapping_table_path ex_self
               = files w2 !! mapping_table_path ex_self) by (vm_compute; reflexivity).
  assert (H2 : files w1 !! edga_file_path ex_self
               = files w2 !! edga_file_path ex_self) by (vm_compute; reflexivity).
  split; [done|].
  destruct (generate_diff_reports_deterministic (ex_io elements) elements
              (reverse ∘ elements) ex_self ex_simulation_df w1 w2 H1 H2)
    as [Hres _].
  split; [exact Hres|]. split; [vm_compute; exact I|]. compute_done.
Defined.

(** ** The stages leave their arguments alone *)

Section keeps.
Context (h0 : gmap nat object).

Lemma preserves_dom h : preserves h0 h → dom h0 ⊆ dom h.
Proof.
  intros Hp l [o Ho]%elem_of_dom. apply elem_of_dom. exists o. by apply Hp.
Qed.

Lemma preserves_insert_new h l o :
  new_in h0 l → preserves h0 h → preserves h0 (<[l := o]> h).
Proof.
  intros Hl Hp l' o' Ho'. rewrite lookup_insert_ne; [by apply Hp|].
  intros ->. apply Hl, elem_of_dom. by exists o'.
Qed.

Lemma keeps_ret {A} (a : A) (Q : A → Prop) : Q a → keeps h0 (mret a) Q.
Proof. intros HQ h Hp. split; [done|]. by intros a' [= <-]. Qed.

Lemma keeps_bind {A B} (m : Mem A) (k : A → Mem B) Q Q' :
  keeps h0 m Q → (∀ a, Q a → keeps h0 (k a) Q') → keeps h0 (m ≫= k) Q'.
Proof.
  intros Hm Hk h Hp. destruct (Hm h Hp) as [Hp1 HQ].
  unfold mbind, Mem_bind. destruct (m h) as [h1 [a|e]].
  - apply (Hk a); [by apply HQ|done].
  - split; [done|]. by intros b [=].
Qed.

Lemma keeps_weaken {A} (m : Mem A) (Q Q' : A → Prop) :
  keeps h0 m Q → (∀ a, Q a → Q' a) → keeps h0 m Q'.
Proof.
  intros Hm HQ h Hp. destruct (Hm h Hp) as [Hp1 H1]. split; [done|].
  intros a Ha. by apply HQ, H1.
Qed.

Lemma keeps_raise {A} (r : result A) : keeps h0 (raise r) (λ _, True).
Proof. intros h Hp. done. Qed.

Lemma keeps_load l : keeps h0 (load l) (λ _, True).
Proof. intros h Hp. unfold load. by destruct (h !! l). Qed.

Lemma keeps_alloc o : keeps h0 (alloc o) (new_in h0).
Proof.
  intros h Hp. unfold alloc. cbn [fst snd].
  assert (new_in h0 (fresh (dom h))) as Hnew.
  { intros Hin. apply (is_fresh (dom h)). by apply (preserves_dom h). }
  split; [by apply preserves_insert_new|]. by intros a [= <-].
Qed.

Lemma keeps_store l o : new_in h0 l → keeps h0 (store l o) (λ _, True).
Proof. intros Hl h Hp. split; [by apply preserves_insert_new|done]. Qed.

Lemma keeps_copy l : keeps h0 (copy l) (new_in h0).
Proof.
  unfold copy. eapply keeps_bind; [apply keeps_load|].
  intros o _. apply keeps_alloc.
Qed.

Lemma keeps_load_sim l : keeps h0 (load_sim l) (λ _, True).
Proof.
  unfold load_sim. eapply keeps_bind; [apply keeps_load|].
  intros [] _; (by apply keeps_ret) || apply keeps_raise.
Qed.

Lemma keeps_load_aug l : keeps h0 (load_aug l) (λ _, True).
Proof.
  unfold load_aug. eapply keeps_bind; [apply keeps_load|].
  intros [] _; (by apply keeps_ret) || apply keeps_raise.
Qed.

Lemma keeps_load_mapping l : keeps h0 (load_mapping l) (λ _, True).
Proof.
  unfold load_mapping. eapply keeps_bind; [apply keeps_load|].
  intros [] _; (by apply keeps_ret) || apply keeps_raise.
Qed.

Lemma keeps_load_ref l : keeps h0 (load_ref l) (λ _, True).
Proof.
  unfold load_ref. eapply keeps_bind; [apply keeps_load|].
  intros [] _; (by apply keeps_ret) || apply keeps_raise.
Qed.

Lemma keeps_load_simulation_output_data self simulation_df :
  keeps h0 (load_simulation_output_data_obj self simulation_df) (new_in h0).
Proof.
  unfold load_simulation_output_data_obj.
  eapply keeps_bind; [apply keeps_copy|]. intros l Hl.
  eapply keeps_bind; [apply keeps_load_sim|]. intros df _.
  eapply keeps_bind; [apply keeps_raise|]. intros _ _.
  eapply keeps_bind; [by apply keeps_store|]. intros _ _.
  eapply keeps_bind; [apply keeps_load_sim|]. intros df' _.
  eapply keeps_bind; [apply keeps_raise|]. intros _ _.
  apply keeps_alloc.
Qed.

Lemma keeps_aggregate_loop sim l iterrows missing_variables :
  new_in h0 l →
  keeps h0 (aggregate_loop sim l iterrows missing_variables) (λ _, True).
Proof.
  intros Hl. revert missing_variables.
  induction iterrows as [|[index row] rest IH]; intros missing_variables.
  - by apply keeps_ret.
  - cbn [aggregate_loop].
    eapply keeps_bind; [apply keeps_load_aug|]. intros draft _.
    eapply keeps_bind; [apply keeps_raise|]. intros _ _.
    eapply keeps_bind; [by apply keeps_store|]. intros _ _.
    apply IH.
Qed.

Lemma keeps_calculate_ssp_emission_totals simulation_df mapping_df :
  keeps h0 (calculate_ssp_emission_totals_obj simulation_df mapping_df)
        (λ r, new_in h0 r.1).
Proof.
  unfold calculate_ssp_emission_totals_obj.
  eapply keeps_bind; [apply keeps_copy|]. intros l Hl.
  eapply keeps_bind; [apply keeps_load_mapping|]. intros m _.
  eapply keeps_bind; [by apply keeps_store|]. intros _ _.
  eapply keeps_bind; [apply keeps_load_sim|]. intros sim _.
  eapply keeps_bind; [apply keeps_load_aug|]. intros draft _.
  eapply keeps_bind; [by apply keeps_aggregate_loop|]. intros missing _.
  by apply keeps_ret.
Qed.

Lemma keeps_generate_detailed_diff_report self draft edgar_df :
  keeps h0 (generate_detailed_diff_report_obj self draft edgar_df) (new_in h0).
Proof.
  unfold generate_detailed_diff_report_obj.
  eapply keeps_bind; [apply keeps_copy|]. intros l Hl.
  eapply keeps_bind; [apply keeps_load_aug|]. intros df _.
  eapply keeps_bind; [apply keeps_raise|]. intros agg _.
  eapply keeps_bind; [apply keeps_alloc|]. intros l1 Hl1.
  eapply keeps_bind; [apply keeps_load_ref|]. intros edgar _.
  eapply keeps_bind; [apply keeps_alloc|]. intros l2 Hl2.
  eapply keeps_bind; [by apply keeps_store|]. intros _ _.
  apply keeps_alloc.
Qed.
End keeps.

Lemma preserves_refl h : preserves h h.
Proof. by intros l o. Qed.

(** C8. Whatever the store holds and whatever references they are given,
    the Simulation Filter, the Aggregator and the Detailed Diff Builder end
    with every object that was in the store unchanged (their arguments among
    them), and the frame they return is a new object: the assignments of
    lines 48, 86, 112, 136 and 139 go to copies and to frames that the stage
    has built itself. *)
Theorem stages_do_not_mutate_inputs (self : SectoralDiffReport)
    (h : gmap nat object) :
  (∀ simulation_df,
     let run := load_simulation_output_data_obj self simulation_df h in
     preserves h run.1 ∧ ∀ out, run.2 = Ok out → new_in h out)
  ∧ (∀ simulation_df mapping_df,
       let run := calculate_ssp_emission_totals_obj simulation_df mapping_df h in
       preserves h run.1 ∧ ∀ out, run.2 = Ok out → new_in h out.1)
  ∧ (∀ detailed_report_draft_df edgar_df,
       let run := generate_detailed_diff_report_obj self
                    detailed_report_draft_df edgar_df h in
       preserves h run.1 ∧ ∀ out, run.2 = Ok out → new_in h out).
Proof.
  split_and!.
  - intros l. apply (keeps_load_simulation_output_data h), preserves_refl.
  - intros l1 l2. apply (keeps_calculate_ssp_emission_totals h), preserves_refl.
  - intros l1 l2. apply (keeps_generate_detailed_diff_report h), preserves_refl.
Qed.

(** ** Running the pipeline again *)

Lemma os_path_join_inj dir a b :
  (∀ s, a ≠ String "/" s) → (∀ s, b ≠ String "/" s) →
  os_path_join dir a = os_path_join dir b → a = b.
Proof.
  intros Ha Hb. unfold os_path_join.
  assert (Hcase : ∀ c : string, (∀ s, c ≠ String "/" s) → ∀ (X : Type) (x y : X),
            match c with String "/" _ => x | _ => y end = y).
  { intros c Hc X x y. destruct c as [|ch c']; [done|].
    destruct (decide (ch = "/"%char)) as [->|Hne]; [by destruct (Hc c')|].
    destruct ch as [[] [] [] [] [] [] [] []]; try done. }
  rewrite !Hcase by done.
  destruct dir as [|ch dir]; [done|].
  destruct (ends_with_slash (String ch dir)).
  - by intros ?%(inj (String.app _)).
  - intros Heq%(inj (String.app _)). by injection Heq.
Qed.

Lemma report_paths_apart misc iso iy ry rid :
  let self := init misc iso iy ry rid in
  mapping_table_path self ≠ detailed_report_path self
  ∧ mapping_table_path self ≠ subsector_report_path self
  ∧ edga_file_path self ≠ detailed_report_path self
  ∧ edga_file_path self ≠ subsector_report_path self.
Proof.
  intros self. unfold self, init, detailed_report_path, subsector_report_path.
  cbn [mapping_table_path edga_file_path misc_dir_path report_type].
  split_and!; intros Heq; apply os_path_join_inj in Heq;
    solve [discriminate Heq | intros s Hs; discriminate Hs].
Qed.

(** X24. A second run, started where the first one ended, returns what the
    first returned and leaves the files as the first left them: the reports
    are not written over the inputs. *)
Lemma generate_diff_reports_again `{PandasIO} misc iso iy ry rid simulation_df w :
  let self := init misc iso iy ry rid in
  let run1 := generate_diff_reports self simulation_df w in
  let run2 := generate_diff_reports self simulation_df run1.1 in
  run2.2 = run1.2 ∧ files run2.1 = files run1.1.
Proof.
  intros self run1 run2.
  destruct (report_paths_apart misc iso iy ry rid) as (Hmd & Hms & Hed & Hes).
  fold self in Hmd, Hms, Hed, Hes.
  assert (Hfiles1 := generate_diff_reports_files self simulation_df w).
  fold run1 in Hfiles1.
  assert (Hin : files run1.1 !! mapping_table_path self
                = files w !! mapping_table_path self
                ∧ files run1.1 !! edga_file_path self
                  = files w !! edga_file_path self).
  { rewrite Hfiles1. destruct run1.2 as [[d s]|e]; [|done].
    by rewrite !lookup_insert_ne. }
  destruct Hin as [Hm He].
  assert (Hres : run2.2 = run1.2).
  { unfold run2. rewrite generate_diff_reports_result, Hm, He.
    unfold run1. by rewrite generate_diff_reports_result. }
  split; [done|].
  unfold run2. rewrite generate_diff_reports_files. fold run2.
  rewrite Hres, Hfiles1. destruct run1.2 as [[d s]|e]; [|done].
  apply map_eq. intros path. rewrite !lookup_insert.
  by repeat case_decide.
Qed.

(** ** The stages on objects compute what the stages on tables compute *)

Lemma wp_bind {A B} (m : Mem A) (k : A → Mem B) Φ Ψ h :
  wp m (λ a h', wp (k a) Φ Ψ h') Ψ h → wp (m ≫= k) Φ Ψ h.
Proof. unfold wp, mbind, Mem_bind. by destruct (m h) as [h' [a|e]]. Qed.

Lemma wp_ret {A} (a : A) (Φ : A → gmap nat object → Prop) Ψ h :
  Φ a h → wp (mret a) Φ Ψ h.
Proof. done. Qed.

Lemma wp_raise {A} (r : result A) (Φ : A → gmap nat object → Prop) Ψ h :
  match r with Ok a => Φ a h | Err e => Ψ e end → wp (raise r) Φ Ψ h.
Proof. done. Qed.

Lemma wp_load l o (Φ : object → gmap nat object → Prop) Ψ h :
  h !! l = Some o → Φ o h → wp (load l) Φ Ψ h.
Proof. intros Hl HΦ. unfold wp, load. by rewrite Hl. Qed.

Lemma wp_alloc o (Φ : nat → gmap nat object → Prop) Ψ h :
  (∀ l, h !! l = None → Φ l (<[l := o]> h)) → wp (alloc o) Φ Ψ h.
Proof.
  intros HΦ. unfold wp, alloc. apply HΦ.
  apply not_elem_of_dom, is_fresh.
Qed.

Lemma wp_store l o (Φ : unit → gmap nat object → Prop) Ψ h :
  Φ tt (<[l := o]> h) → wp (store l o) Φ Ψ h.
Proof. done. Qed.

Lemma wp_copy l o (Φ : nat → gmap nat object → Prop) Ψ h :
  h !! l = Some o →
  (∀ l', h !! l' = None → Φ l' (<[l' := o]> h)) → wp (copy l) Φ Ψ h.
Proof.
  intros Hl HΦ. unfold copy. apply wp_bind, (wp_load l o); [done|].
  by apply wp_alloc.
Qed.

Lemma wp_load_sim l df (Φ : SimFrame → gmap nat object → Prop) Ψ h :
  h !! l = Some (SimObj df) → Φ df h → wp (load_sim l) Φ Ψ h.
Proof.
  intros Hl HΦ. unfold load_sim. by apply wp_bind, (wp_load l (SimObj df)).
Qed.

Lemma wp_load_aug l df (Φ : AugFrame → gmap nat object → Prop) Ψ h :
  h !! l = Some (AugObj df) → Φ df h → wp (load_aug l) Φ Ψ h.
Proof.
  intros Hl HΦ. unfold load_aug. by apply wp_bind, (wp_load l (AugObj df)).
Qed.

Lemma wp_load_mapping l df (Φ : MappingFrame → gmap nat object → Prop) Ψ h :
  h !! l = Some (MappingObj df) → Φ df h → wp (load_mapping l) Φ Ψ h.
Proof.
  intros Hl HΦ. unfold load_mapping.
  by apply wp_bind, (wp_load l (MappingObj df)).
Qed.

Lemma wp_load_ref l df (Φ : list RefRow → gmap nat object → Prop) Ψ h :
  h !! l = Some (RefObj df) → Φ df h → wp (load_ref l) Φ Ψ h.
Proof.
  intros Hl HΦ. unfold load_ref. by apply wp_bind, (wp_load l (RefObj df)).
Qed.

(** The Simulation Filter on a reference to a table returns a reference to
    what the filter returns on the table, and raises when it raises. *)
Lemma load_simulation_output_data_obj_refines self h l df :
  h !! l = Some (SimObj df) →
  wp (load_simulation_output_data_obj self l)
     (λ l' h', ∃ out, load_simulation_output_data self df = Ok out
                      ∧ h' !! l' = Some (SimObj out))
     (λ e, load_simulation_output_data self df = Err e) h.
Proof.
  intros Hl. unfold load_simulation_output_data_obj, load_simulation_output_data.
  apply wp_bind, (wp_copy l (SimObj df)); [done|]. intros l1 Hl1.
  apply wp_bind, (wp_load_sim l1 df); [by rewrite lookup_insert_eq|].
  apply wp_bind, wp_raise.
  destruct (require_column (sim_columns df) "time_period") as [[]|e]; [|done].
  apply wp_bind, wp_store.
  apply wp_bind, (wp_load_sim l1 (with_year self df));
    [by rewrite lookup_insert_eq|].
  apply wp_bind, wp_raise. cbn [mbind result_bind].
  destruct (require_column _ "primary_id") as [[]|e]; [|done].
  apply wp_alloc. intros l2 Hl2. eexists. split; [done|].
  by rewrite lookup_insert_eq.
Qed.

(** The same for the Detailed Diff Builder. *)
Lemma generate_detailed_diff_report_obj_refines self h l1 l2 draft edgar_df :
  h !! l1 = Some (AugObj draft) →
  h !! l2 = Some (RefObj edgar_df) →
  wp (generate_detailed_diff_report_obj self l1 l2)
     (λ l' h', ∃ out, generate_detailed_diff_report self draft edgar_df = Ok out
                      ∧ h' !! l' = Some (DetailedObj out))
     (λ e, generate_detailed_diff_report self draft edgar_df = Err e) h.
Proof.
  intros Hl1 Hl2.
  unfold generate_detailed_diff_report_obj, generate_detailed_diff_report.
  apply wp_bind, (wp_copy l1 (AugObj draft)); [done|]. intros l3 Hl3.
  apply wp_bind, (wp_load_aug l3 draft); [by rewrite lookup_insert_eq|].
  apply wp_bind, wp_raise.
  destruct (detailed_diff_report_agg draft) as [agg|e]; [|done].
  apply wp_bind, wp_alloc. intros l4 Hl4.
  apply wp_bind, (wp_load_ref l2 edgar_df).
  { rewrite !lookup_insert_ne; [done|congruence|].
    intros <-. rewrite lookup_insert_ne in Hl4 by congruence. congruence. }
  apply wp_bind, wp_alloc. intros l5 Hl5.
  apply wp_bind, wp_store.
  apply wp_alloc. intros l6 Hl6. eexists. split; [done|].
  by rewrite lookup_insert_eq.
Qed.

(** The loop of the Aggregator, started at index [length done] with the
    rows [todo] still to visit. *)
Lemma wp_aggregate_loop sim l columns todo :
  ∀ done missing_variables h,
    h !! l = Some (AugObj {| aug_columns := columns; aug_rows := done ++ todo |}) →
    wp (aggregate_loop sim l
          (imap (λ i r, ((length done + i)%nat, r)) todo) missing_variables)
       (λ missing' h',
          ∃ rows', aggregate_rows sim columns (a_row <$> todo) missing_variables
                   = Ok (rows', missing')
                   ∧ h' !! l = Some (AugObj {| aug_columns := columns;
                                               aug_rows := done ++ rows' |}))
       (λ e, aggregate_rows sim columns (a_row <$> todo) missing_variables
             = Err e) h.
Proof.
  induction todo as [|row todo IH]; intros done missing_variables h Hl.
  - apply wp_ret. by exists [].
  - rewrite imap_cons, fmap_cons. cbn [aggregate_loop aggregate_rows].
    eapply wp_bind, wp_load_aug; [done|]. cbn [aug_columns].
    apply wp_bind, wp_raise.
    destruct (require_column columns "Vars") as [[]|e]; [|done].
    apply wp_bind, wp_store. cbn [mbind result_bind].
    set (total := subsector_total_emissions _ _ _).
    set (missing' := missing_variables ∪ _).
    set (row' := {| a_row := a_row row; a_Simulation_Values := total |}).
    assert (Hdraft : set_simulation_value (length done + 0) total
                       {| aug_columns := columns; aug_rows := done ++ row :: todo |}
                     = {| aug_columns := columns;
                          aug_rows := (done ++ [row']) ++ todo |}).
    { unfold set_simulation_value. cbn [aug_columns aug_rows].
      by rewrite alter_app_r, <-(assoc_L (++)). }
    rewrite Hdraft.
    rewrite (imap_ext _ (λ i r, ((List.length (done ++ [row'])%list + i)%nat, r))).
    2:{ intros i r _. cbn. rewrite length_app. cbn. f_equal. lia. }
    specialize (IH (done ++ [row'])%list missing'
                  (<[l := AugObj {| aug_columns := columns;
                                    aug_rows := (done ++ [row']) ++ todo |}]> h)).
    unfold wp in *. rewrite lookup_insert_eq in IH. specialize (IH eq_refl).
    destruct (aggregate_loop _ _ _ _ _) as [h' [m|e]].
    + destruct IH as (rows' & -> & Hh'). exists (row' :: rows').
      split; [done|]. by rewrite <-(assoc_L (++)) in Hh'.
    + by rewrite IH.
Qed.

(** The Aggregator on references returns a reference to the augmented
    table and the set of missing variables that [aggregate] returns. *)
Lemma calculate_ssp_emission_totals_obj_refines h l1 l2 sim mapping_df :
  h !! l1 = Some (SimObj sim) →
  h !! l2 = Some (MappingObj mapping_df) →
  wp (calculate_ssp_emission_totals_obj l1 l2)
     (λ r h', ∃ draft, aggregate sim mapping_df = Ok (draft, r.2)
                       ∧ h' !! r.1 = Some (AugObj draft))
     (λ e, aggregate sim mapping_df = Err e) h.
Proof.
  intros Hl1 Hl2. unfold calculate_ssp_emission_totals_obj, aggregate.
  apply wp_bind, (wp_copy l2 (MappingObj mapping_df)); [done|]. intros l3 Hl3.
  apply wp_bind, (wp_load_mapping l3 mapping_df); [by rewrite lookup_insert_eq|].
  apply wp_bind, wp_store.
  apply wp_bind, (wp_load_sim l1 sim).
  { rewrite !lookup_insert_ne; [done|congruence..]. }
  eapply wp_bind, wp_load_aug; [by rewrite lookup_insert_eq|].
  apply wp_bind.
  pose proof (wp_aggregate_loop sim l3
                (set_column_name (map_columns mapping_df) "Simulation_Values")
                (aug_rows (zero_simulation_values mapping_df)) [] ∅
                (<[l3 := AugObj (zero_simulation_values mapping_df)]>
                   (<[l3 := MappingObj mapping_df]> h))) as Hloop.
  rewrite lookup_insert_eq in Hloop. specialize (Hloop eq_refl).
  assert (Hrows : a_row <$> aug_rows (zero_simulation_values mapping_df)
                  = map_rows mapping_df).
  { unfold zero_simulation_values. cbn [aug_rows].
    rewrite <-list_fmap_compose. apply list_fmap_id. }
  rewrite Hrows in Hloop. unfold wp in *. cbn [length Nat.add] in Hloop.
  destruct (aggregate_loop _ _ _ _ _) as [h' [m|e]].
  - destruct Hloop as (rows' & -> & Hh'). cbn. by eexists.
  - by rewrite Hloop.
Qed.

(** A store with the example simulation table at reference 0 and the
    example mapping table at reference 1: after the filter ran on reference
    0 the table there is the one that was there, and the slice is a new
    object. *)
Lemma stages_do_not_mutate_inputs_example :
  let h : gmap nat object :=
    {[ 0%nat := SimObj ex_simulation_df; 1%nat := MappingObj ex_mapping_df ]} in
  let run := load_simulation_output_data_obj ex_self 0 h in
  run.1 !! 0%nat = Some (SimObj ex_simulation_df)
  ∧ ∃ out, run.2 = Ok out ∧ new_in h out ∧ run.1 !! out = Some (SimObj ex_slice).
Proof.
  intros h run.
  destruct (stages_do_not_mutate_inputs ex_self h) as (Hfilter & _ & _).
  destruct (Hfilter 0%nat) as [Hkeep Hnew]. fold run in Hkeep, Hnew.
  split; [by apply Hkeep|].
  pose proof (load_simulation_output_data_obj_refines ex_self h 0%nat
                ex_simulation_df eq_refl) as Hwp.
  unfold wp in Hwp. fold run in Hwp. destruct run as [h' [out|e]].
  - destruct Hwp as (slice & Hslice & Hout). exists out. cbn [fst snd] in *.
    split; [done|]. split; [by apply Hnew|].
    rewrite Hout. do 2 f_equal.
    assert (Hc : load_simulation_output_data ex_self ex_simulation_df = Ok ex_slice)
      by (vm_compute; reflexivity).
    congruence.
  - exfalso. revert Hwp. vm_compute. discriminate.
Defined.

(** * Further properties of the stages *)

(** * Further properties of the code *)

(** ** Simulation Filter, further *)

(** X1. The Simulation Filter raises for a missing column and for nothing
    else: [KeyError] on [time_period] when it is absent, else [KeyError] on
    [primary_id] when that is absent; the cells of a numeric table, missing
    values included, never make it raise. *)
Theorem load_simulation_output_data_raises (self : SectoralDiffReport)
    (simulation_df : SimFrame) (e : error) :
  load_simulation_output_data self simulation_df = Err e ↔
  (("time_period" ∉ sim_columns simulation_df) ∧ e = KeyError "time_period")
  ∨ ("time_period" ∈ sim_columns simulation_df
     ∧ ("primary_id" ∉ sim_columns simulation_df)
     ∧ e = KeyError "primary_id").
Proof.
  unfold load_simulation_output_data.
  destruct (decide ("time_period" ∈ sim_columns simulation_df)) as [Ht|Ht].
  - rewrite (require_column_ok _ "time_period") by done.
    cbn [mbind result_bind].
    destruct (decide ("primary_id" ∈ sim_columns simulation_df)) as [Hp|Hp].
    + rewrite require_column_ok
        by (apply elem_of_set_column_name; by right).
      split; [done|]. intros [[? _]|(_ & ? & _)]; done.
    + rewrite require_column_err.
      2:{ cbn. rewrite elem_of_set_column_name. by intros [?|?]. }
      split.
      * intros [= <-]. by right.
      * intros [[? _]|(_ & _ & ->)]; done.
  - rewrite (require_column_err _ "time_period") by done. split.
    + intros [= <-]. by left.
    + intros [[_ ->]|(? & _)]; done.
Qed.

Lemma set_column_name_idemp columns c :
  set_column_name (set_column_name columns c) c = set_column_name columns c.
Proof.
  assert (Hc : c ∈ set_column_name columns c)
    by (apply elem_of_set_column_name; by left).
  generalize dependent (set_column_name columns c). intros l Hl.
  unfold set_column_name. by rewrite decide_True.
Qed.

Lemma sim_cell_add_year self r c :
  c ≠ "year" → sim_cell (add_year self r) c = sim_cell r c.
Proof. intros Hc. unfold sim_cell, add_year. by rewrite lookup_insert_ne. Qed.

Lemma year_of_add_year self r : year_of self (add_year self r) = year_of self r.
Proof. unfold year_of. by rewrite sim_cell_add_year. Qed.

Lemma add_year_idemp self r : add_year self (add_year self r) = add_year self r.
Proof.
  unfold add_year at 1. rewrite year_of_add_year.
  unfold add_year. by rewrite insert_insert_eq.
Qed.

Lemma load_simulation_output_data_inv self simulation_df out :
  load_simulation_output_data self simulation_df = Ok out →
  "time_period" ∈ sim_columns simulation_df
  ∧ "primary_id" ∈ sim_columns simulation_df
  ∧ out = select_reference_slice self (with_year self simulation_df).
Proof.
  unfold load_simulation_output_data, require_column.
  destruct (decide ("time_period" ∈ sim_columns simulation_df)) as [Ht|];
    [|done].
  cbn [mbind result_bind].
  destruct (decide ("primary_id" ∈ _)) as [Hp|]; [|done].
  intros [= <-]. split_and!; [done| |done].
  cbn in Hp. by apply elem_of_set_column_name in Hp as [?|?].
Qed.

(** X2. What the Simulation Filter returns: the header of its argument, with
    [year] added at the end unless it was there; no more rows than it was
    given; and in every row the reference year under [year], the reference
    entity under [primary_id], and under every other column the cell of a row
    of the argument. *)
Theorem load_simulation_output_data_slice (self : SectoralDiffReport)
    (simulation_df out : SimFrame) :
  load_simulation_output_data self simulation_df = Ok out →
  sim_columns out
  = (if decide ("year" ∈ sim_columns simulation_df)
     then sim_columns simulation_df
     else (sim_columns simulation_df ++ ["year"])%list)
  ∧ (length (sim_rows out) ≤ length (sim_rows simulation_df))%nat
  ∧ ∀ r, r ∈ sim_rows out →
      sim_cell r "year" = Some (Qc_of_Z (ref_year self))
      ∧ sim_cell r "primary_id" = Some (Qc_of_Z (ref_primary_id self))
      ∧ ∃ r0, r0 ∈ sim_rows simulation_df
              ∧ ∀ c, c ≠ "year" → r !! c = r0 !! c.
Proof.
  intros (_ & _ & ->)%load_simulation_output_data_inv.
  cbn [select_reference_slice with_year sim_columns sim_rows]. split_and!.
  - done.
  - etrans; [apply length_filter|]. by rewrite length_fmap.
  - intros r [Hin (r0 & -> & Hr0)%list_elem_of_fmap]%list_elem_of_filter.
    unfold in_reference_slice in Hin.
    apply andb_True in Hin as [Hy Hp].
    apply cell_eqb_spec in Hy. apply cell_eqb_spec in Hp.
    split_and!; [done|done|].
    exists r0. split; [done|]. intros c Hc.
    unfold add_year. by rewrite lookup_insert_ne.
Qed.

Lemma load_simulation_output_data_slice_example :
  load_simulation_output_data ex_self ex_simulation_df = Ok ex_slice
  ∧ sim_columns ex_slice
    = ["time_period"; "primary_id"; "CO2_A"; "CO2_B"; "year"]
  ∧ length (sim_rows ex_slice) = 1%nat.
Proof.
  assert (H : load_simulation_output_data ex_self ex_simulation_df = Ok ex_slice)
    by (vm_compute; reflexivity).
  split; [done|].
  destruct (load_simulation_output_data_slice ex_self ex_simulation_df ex_slice H)
    as (Hcols & _ & _).
  split; [by rewrite Hcols|]. vm_compute. reflexivity.
Defined.

(** X3. Filtering twice is filtering once: on the slice it has returned the
    Simulation Filter returns that slice again. *)
Theorem load_simulation_output_data_idempotent (self : SectoralDiffReport)
    (simulation_df out : SimFrame) :
  load_simulation_output_data self simulation_df = Ok out →
  load_simulation_output_data self out = Ok out.
Proof.
  intros (Ht & Hp & ->)%load_simulation_output_data_inv.
  unfold load_simulation_output_data.
  cbn [select_reference_slice with_year sim_columns sim_rows].
  rewrite (require_column_ok _ "time_period")
    by (apply elem_of_set_column_name; by right).
  cbn [mbind result_bind].
  rewrite (require_column_ok _ "primary_id")
    by (cbn; rewrite !elem_of_set_column_name; auto).
  cbn [mbind result_bind]. unfold select_reference_slice, with_year.
  cbn [sim_columns sim_rows]. do 2 f_equal.
  - apply set_column_name_idemp.
  - set (slice := filter (in_reference_slice self)
                    (add_year self <$> sim_rows simulation_df)).
    assert (Hid : add_year self <$> slice = slice).
    { rewrite <-(list_fmap_id slice) at 2. apply list_fmap_ext.
      intros i r Hr%list_elem_of_lookup_2.
      apply list_elem_of_filter in Hr as [_ (r0 & -> & _)%list_elem_of_fmap].
      apply add_year_idemp. }
    rewrite Hid. by apply list_filter_filter_r.
Qed.

Lemma load_simulation_output_data_idempotent_example :
  load_simulation_output_data ex_self ex_simulation_df = Ok ex_slice
  ∧ load_simulation_output_data ex_self ex_slice = Ok ex_slice.
Proof.
  assert (H : load_simulation_output_data ex_self ex_simulation_df = Ok ex_slice)
    by (vm_compute; reflexivity).
  split; [done|].
  exact (load_simulation_output_data_idempotent ex_self ex_simulation_df ex_slice H).
Defined.

(** ** Splitting [Vars] *)

Lemma split_not_nil sep s : split sep s ≠ [].
Proof.
  destruct s as [|c s]; [done|]. cbn.
  destruct (Ascii.eqb c sep); [done|]. by destruct (split sep s).
Qed.

Lemma join_cons sep p q rest :
  join sep (p :: q :: rest) = p +:+ sep +:+ join sep (q :: rest).
Proof. done. Qed.

(** X4. How the Aggregator reads a [Vars] cell: the pieces of [split] joined
    by the separator give the cell back, no piece contains the separator, and
    there is one piece more than there are separators in the cell (so the
    empty cell and a trailing colon yield an empty variable name). *)
Theorem split_pieces (sep : ascii) (s : string) :
  join (String sep "") (split sep s) = s
  ∧ Forall (λ p, sep ∉ chars p) (split sep s)
  ∧ length (split sep s) = S (length (filter (λ c, c = sep) (chars s))).
Proof.
  induction s as [|c s (IHj & IHf & IHl)].
  { split_and!; [done| |done]. constructor; [apply not_elem_of_nil|constructor]. }
  cbn [split chars]. rewrite filter_cons.
  destruct (Ascii.eqb_spec c sep) as [->|Hne].
  - rewrite decide_True by done. split_and!.
    + pose proof (split_not_nil sep s) as Hnil.
      destruct (split sep s) as [|q rest]; [done|].
      by rewrite join_cons, IHj.
    + constructor; [|done]. cbn. apply not_elem_of_nil.
    + cbn. by rewrite IHl.
  - rewrite decide_False by done.
    pose proof (split_not_nil sep s) as Hnil.
    destruct (split sep s) as [|w ws]; [done|]. split_and!.
    + destruct ws as [|q rest]; [cbn in *; by rewrite IHj|].
      rewrite join_cons. rewrite join_cons in IHj. by rewrite <-IHj.
    + inversion IHf as [|? ? Hw Hws]; subst. constructor; [|done].
      cbn. by intros [?|?]%elem_of_cons.
    + done.
Qed.

(** ** Reference ETL, further *)

Lemma edgar_long_ok self edgar_df :
  "Code" ∈ edgar_columns edgar_df →
  "CSC Subsector" ∈ edgar_columns edgar_df →
  "Gas" ∈ edgar_columns edgar_df →
  str (ref_year self) ∈ edgar_columns edgar_df →
  "Edgar_Values" ∉ edgar_columns edgar_df →
  edgar_long self edgar_df
  = Ok {| Edgar_Values_dtype := year_dtype edgar_df;
          ref_rows :=
            melt_year self
            <$> filter (λ r, text_cell (labels r) "Code" = iso_alpha_3 self)
                       (edgar_rows edgar_df) |}.
Proof.
  intros HC HS HG HY HV. unfold edgar_long.
  rewrite (require_column_ok _ "Code"), (require_column_ok _ "CSC Subsector"),
    (require_column_ok _ "Gas") by done.
  cbn [mbind result_bind].
  rewrite require_no_column_ok by by rewrite Edgar_Values_set_column_name.
  cbn [mbind result_bind].
  by rewrite !require_column_ok
    by (apply elem_of_set_column_name; auto).
Qed.

(** A long table whose column [Edgar_Values] is a column of objects has
    no rows: it comes from a file without data rows. *)
Lemma edgar_long_object self edgar_df long :
  edgar_long self edgar_df = Ok long →
  Edgar_Values_dtype long = object_dtype →
  edgar_rows edgar_df = [] ∧ ref_rows long = [].
Proof.
  unfold edgar_long, require_column, require_no_column.
  repeat case_decide; cbn; try done. intros [= <-]. cbn. unfold year_dtype.
  by destruct (edgar_rows edgar_df).
Qed.

(** X5. On a reference table with the columns [Code], [CSC Subsector], [Gas]
    and the column of the reference year, and without a column named
    [Edgar_Values], the Reference ETL returns one entry per row of the
    target country, in the order of the file: its class is [Subsector:Gas],
    its year the reference year, its value the cell of the year column.
    Rows of other countries and other columns are not read; a country
    without rows gives the empty table, not an exception.  The column
    [Edgar_Values] is a float64 column when the file has a data row, and a
    column of objects when it has none. *)
Theorem edgar_long_country_rows (self : SectoralDiffReport)
    (edgar_df : EdgarFrame) :
  "Code" ∈ edgar_columns edgar_df →
  "CSC Subsector" ∈ edgar_columns edgar_df →
  "Gas" ∈ edgar_columns edgar_df →
  str (ref_year self) ∈ edgar_columns edgar_df →
  "Edgar_Values" ∉ edgar_columns edgar_df →
  let country :=
    filter (λ r, text_cell (labels r) "Code" = iso_alpha_3 self)
           (edgar_rows edgar_df) in
  ∃ long,
    edgar_long self edgar_df = Ok long
    ∧ r_Edgar_Class <$> ref_rows long
      = (λ r, text_cell (labels r) "CSC Subsector" +:+ ":"
              +:+ text_cell (labels r) "Gas") <$> country
    ∧ r_Edgar_Values <$> ref_rows long
      = (λ r, default None (values r !! str (ref_year self))) <$> country
    ∧ Forall (λ e, r_Year e = ref_year self) (ref_rows long)
    ∧ ((∀ r, r ∈ edgar_rows edgar_df →
             text_cell (labels r) "Code" ≠ iso_alpha_3 self) →
       ref_rows long = [])
    ∧ (edgar_rows edgar_df = [] → Edgar_Values_dtype long = object_dtype)
    ∧ (edgar_rows edgar_df ≠ [] → Edgar_Values_dtype long = float64_dtype).
Proof.
  intros HC HS HG HY HV country. eexists.
  split; [by apply edgar_long_ok|]. fold country.
  cbn [ref_rows Edgar_Values_dtype]. split_and!.
  - by rewrite <-list_fmap_compose.
  - by rewrite <-list_fmap_compose.
  - apply Forall_fmap, Forall_true. done.
  - intros Hnone. unfold country. rewrite filter_none; [done|].
    intros r Hr. by apply Hnone.
  - unfold year_dtype. by intros ->.
  - unfold year_dtype. by destruct (edgar_rows edgar_df).
Qed.

Lemma edgar_long_country_rows_example :
  ("Code" ∈ edgar_columns ex_edgar_df
   ∧ "CSC Subsector" ∈ edgar_columns ex_edgar_df
   ∧ "Gas" ∈ edgar_columns ex_edgar_df
   ∧ str (ref_year ex_self) ∈ edgar_columns ex_edgar_df
   ∧ "Edgar_Values" ∉ edgar_columns ex_edgar_df)
  ∧ edgar_long ex_self ex_edgar_df
    = Ok {| Edgar_Values_dtype := float64_dtype; ref_rows := ex_ref |}.
Proof.
  assert (HC : "Code" ∈ edgar_columns ex_edgar_df) by compute_done.
  assert (HS : "CSC Subsector" ∈ edgar_columns ex_edgar_df) by compute_done.
  assert (HG : "Gas" ∈ edgar_columns ex_edgar_df) by compute_done.
  assert (HY : str (ref_year ex_self) ∈ edgar_columns ex_edgar_df)
    by compute_done.
  assert (HV : "Edgar_Values" ∉ edgar_columns ex_edgar_df) by compute_done.
  split; [done|].
  destruct (edgar_long_country_rows ex_self ex_edgar_df HC HS HG HY HV)
    as (long & Hlong & _).
  rewrite edgar_long_ok by done. vm_compute. reflexivity.
Defined.

Lemma require_column_set_column_name columns c c' :
  c' ≠ c →
  require_column (set_column_name columns c) c' = require_column columns c'.
Proof.
  intros Hne. unfold require_column.
  destruct (decide (c' ∈ columns)) as [Hin|Hnin].
  - rewrite decide_True; [done|]. apply elem_of_set_column_name. by right.
  - rewrite decide_False; [done|].
    rewrite elem_of_set_column_name. by intros [?|?].
Qed.

Lemma require_no_column_Edgar_Values columns :
  require_no_column (set_column_name columns "Edgar_Class") "Edgar_Values"
  = require_no_column columns "Edgar_Values".
Proof.
  unfold require_no_column.
  destruct (decide ("Edgar_Values" ∈ columns)) as [Hin|Hnin].
  - by rewrite decide_True by by apply Edgar_Values_set_column_name.
  - by rewrite decide_False by by rewrite Edgar_Values_set_column_name.
Qed.

Lemma edgar_long_err self edgar_df e :
  edgar_long self edgar_df = Err e ↔
  (∃ c, first_missing (edgar_columns edgar_df)
          ["Code"; "CSC Subsector"; "Gas"] = Some c
        ∧ e = KeyError c)
  ∨ (first_missing (edgar_columns edgar_df)
       ["Code"; "CSC Subsector"; "Gas"] = None
     ∧ "Edgar_Values" ∈ edgar_columns edgar_df
     ∧ e = ValueError)
  ∨ (first_missing (edgar_columns edgar_df)
       ["Code"; "CSC Subsector"; "Gas"] = None
     ∧ ("Edgar_Values" ∉ edgar_columns edgar_df)
     ∧ (str (ref_year self) ∉ edgar_columns edgar_df)
     ∧ e = KeyError (str (ref_year self))).
Proof.
  unfold edgar_long.
  rewrite (require_column_ok _ "Edgar_Class")
    by (apply elem_of_set_column_name; by left).
  rewrite require_column_set_column_name by apply str_not_Edgar_Class.
  rewrite require_no_column_Edgar_Values.
  unfold first_missing, require_column, require_no_column.
  rewrite !filter_cons, filter_nil.
  repeat case_decide; try contradiction; cbn; split;
    try (intros [= <-]); try done;
    try (intros [(c & [=] & _)|[(? & ? & _)|(? & ? & ? & _)]]; done);
    try (intros [(c & [= <-] & ->)|[([=] & _)|([=] & _)]]; done);
    try (intros [(c & [=] & _)|[(_ & _ & ->)|(_ & ? & _)]]; done);
    try (intros [(c & [=] & _)|[(_ & ? & _)|(_ & _ & _ & ->)]]; done);
    try (left; by eexists);
    try (right; left; done);
    try (right; right; done).
Qed.

(** X6. The Reference ETL raises exactly in these cases: the reference file
    is missing ([FileNotFoundError]); its bytes are not read as a table (the
    reader's exception); one of the columns [Code], [CSC Subsector], [Gas]
    is absent, when it raises [KeyError] for the first of them in this
    order; these are there and the file has a column named [Edgar_Values],
    which [melt] refuses with [ValueError]; or all this is in order and the
    column of the reference year is absent ([KeyError]).  It changes neither
    files nor standard output. *)
Theorem edgar_data_etl_raises `{PandasIO} (self : SectoralDiffReport)
    (w : world) (e : error) :
  (edgar_data_etl self w).1 = w
  ∧ ((edgar_data_etl self w).2 = Err e ↔
     (files w !! edga_file_path self = None
      ∧ e = FileNotFoundError (edga_file_path self))
     ∨ (∃ bytes, files w !! edga_file_path self = Some bytes
                 ∧ parse_edgar bytes = None
                 ∧ e = ParserError (edga_file_path self))
     ∨ (∃ bytes edgar_df,
          files w !! edga_file_path self = Some bytes
          ∧ parse_edgar bytes = Some edgar_df
          ∧ ((∃ c, first_missing (edgar_columns edgar_df)
                     ["Code"; "CSC Subsector"; "Gas"] = Some c
                   ∧ e = KeyError c)
             ∨ (first_missing (edgar_columns edgar_df)
                  ["Code"; "CSC Subsector"; "Gas"] = None
                ∧ "Edgar_Values" ∈ edgar_columns edgar_df
                ∧ e = ValueError)
             ∨ (first_missing (edgar_columns edgar_df)
                  ["Code"; "CSC Subsector"; "Gas"] = None
                ∧ ("Edgar_Values" ∉ edgar_columns edgar_df)
                ∧ (str (ref_year self) ∉ edgar_columns edgar_df)
                ∧ e = KeyError (str (ref_year self)))))).
Proof.
  unfold edgar_data_etl, read_csv, lift, mbind, IO_bind.
  destruct (parse_file parse_edgar (edga_file_path self)
              (files w !! edga_file_path self)) as [edgar_df|e0] eqn:Hfile.
  - cbn [fst snd]. split; [done|].
    apply parse_file_ok in Hfile as (bytes & Hbytes & Hparse).
    rewrite edgar_long_err, Hbytes. split.
    + intros Hcases. right. right. by exists bytes, edgar_df.
    + intros [[[=] _]|[(b & [= <-] & Hnone & _)|(b & df & [= <-] & Hdf & Hc)]].
      * congruence.
      * assert (df = edgar_df) as -> by congruence. done.
  - cbn [fst snd]. split; [done|].
    apply parse_file_err in Hfile as [[Hnone ->]|(bytes & Hbytes & Hparse & ->)].
    + rewrite Hnone. split.
      * intros [= <-]. by left.
      * intros [[_ ->]|[(b & [=] & _)|(b & df & [=] & _)]]. done.
    + rewrite Hbytes. split.
      * intros [= <-]. right. left. by exists bytes.
      * intros [[[=] _]|[(b & [= <-] & _ & ->)|(b & df & [= <-] & Hdf & _)]];
          [done|congruence].
Qed.

(** A reference file that has a column named [Edgar_Values]: [melt] raises
    [ValueError], and a run ends with it. *)
Lemma edgar_long_Edgar_Values_column :
  edgar_long ex_self ex_edgar_df_Edgar_Values = Err ValueError
  ∧ (@generate_diff_reports (ex_io elements) ex_self ex_simulation_df
       (ex_world "mapping" "edgar with Edgar_Values")).2 = Err ValueError.
Proof. split; by vm_compute. Qed.

Lemma colon_key_inj a1 b1 a2 b2 :
  ":"%char ∉ chars a1 → ":"%char ∉ chars a2 →
  a1 +:+ ":" +:+ b1 = a2 +:+ ":" +:+ b2 → a1 = a2 ∧ b1 = b2.
Proof.
  revert a2. induction a1 as [|c a1 IH]; intros [|c' a2] H1 H2 Heq.
  - cbn in Heq. by injection Heq.
  - cbn in Heq. injection Heq as <- _. destruct H2. cbn. left.
  - cbn in Heq. injection Heq as -> _. destruct H1. cbn. left.
  - cbn in Heq. injection Heq as <- Heq.
    destruct (IH a2) as [-> ->]; [| |done|done].
    + intros ?. apply H1. cbn. by right.
    + intros ?. apply H2. cbn. by right.
Qed.

(** X7. The key [Edgar_Class] that the Reference ETL builds tells subsector
    and gas apart whenever the subsector labels contain no colon: two rows
    with the same key then have the same subsector and the same gas. *)
Theorem edgar_class_of_inj (r1 r2 : EdgarRow) :
  ":"%char ∉ chars (text_cell (labels r1) "CSC Subsector") →
  ":"%char ∉ chars (text_cell (labels r2) "CSC Subsector") →
  edgar_class_of r1 = edgar_class_of r2 →
  text_cell (labels r1) "CSC Subsector" = text_cell (labels r2) "CSC Subsector"
  ∧ text_cell (labels r1) "Gas" = text_cell (labels r2) "Gas".
Proof. intros H1 H2 Heq. by apply colon_key_inj. Qed.

Lemma edgar_class_of_inj_example :
  let r1 := {| labels := {[ "Code" := "HRV"; "CSC Subsector" := "Energy";
                            "Gas" := "CO2" ]};
               values := {[ "2015" := num 20 ]} |} in
  let r2 := {| labels := {[ "Code" := "FRA"; "CSC Subsector" := "Energy";
                            "Gas" := "CO2" ]};
               values := {[ "2015" := num 99 ]} |} in
  ((":"%char ∉ chars (text_cell (labels r1) "CSC Subsector"))
   ∧ (":"%char ∉ chars (text_cell (labels r2) "CSC Subsector"))
   ∧ edgar_class_of r1 = edgar_class_of r2)
  ∧ text_cell (labels r1) "Gas" = text_cell (labels r2) "Gas".
Proof.
  intros r1 r2.
  assert (H1 : ":"%char ∉ chars (text_cell (labels r1) "CSC Subsector"))
    by compute_done.
  assert (H2 : ":"%char ∉ chars (text_cell (labels r2) "CSC Subsector"))
    by compute_done.
  assert (H3 : edgar_class_of r1 = edgar_class_of r2) by reflexivity.
  split; [done|]. exact (proj2 (edgar_class_of_inj r1 r2 H1 H2 H3)).
Defined.

(** ** Aggregator, further *)

Lemma subsector_total_emissions_contributions simulation_df vars_list :
  subsector_total_emissions simulation_df
    (list_to_set (sim_columns simulation_df)) vars_list
  = Qc_sum (contribution simulation_df <$> vars_list).
Proof.
  unfold subsector_total_emissions.
  transitivity
    (Qc_sum (column_total simulation_df
               <$> matching_columns (list_to_set (sim_columns simulation_df))
                     vars_list)).
  { by destruct (matching_columns _ _). }
  unfold matching_columns.
  induction vars_list as [|v vars IH]; [done|].
  rewrite filter_cons, fmap_cons, Qc_sum_cons, <-IH. unfold contribution.
  destruct (decide (v ∈ sim_columns simulation_df)) as [Hin|Hnin].
  - rewrite decide_True by by apply elem_of_list_to_set. done.
  - rewrite decide_False by by rewrite elem_of_list_to_set. ring.
Qed.

Lemma aggregate_inv simulation_df mapping_df draft missing_variables :
  "Vars" ∈ map_columns mapping_df →
  aggregate simulation_df mapping_df = Ok (draft, missing_variables) →
  aug_rows draft = aug_of simulation_df <$> map_rows mapping_df
  ∧ aug_columns draft
    = set_column_name (map_columns mapping_df) "Simulation_Values"
  ∧ missing_variables = missing_of simulation_df (map_rows mapping_df).
Proof.
  intros HVars. rewrite aggregate_ok by done. by intros [= <- <-].
Qed.

Lemma matching_columns_list simulation_df vars_list :
  matching_columns (list_to_set (sim_columns simulation_df)) vars_list
  = filter (λ v, v ∈ sim_columns simulation_df) vars_list.
Proof.
  unfold matching_columns. apply list_filter_iff. intros v.
  apply elem_of_list_to_set.
Qed.

(** X8. What the Aggregator computes for a mapping row: the table it
    returns has the mapping rows in their order, and the
    [Simulation_Values] of a row is the sum of the column totals of those
    entries of its [Vars] that are columns of the slice, in the order of the
    entries and each as often as it is listed.  The other rows of the
    mapping have no part in it. *)
Theorem aggregate_row_total (simulation_df : SimFrame)
    (mapping_df : MappingFrame) (draft : AugFrame)
    (missing_variables : gset string) :
  "Vars" ∈ map_columns mapping_df →
  aggregate simulation_df mapping_df = Ok (draft, missing_variables) →
  a_row <$> aug_rows draft = map_rows mapping_df
  ∧ ∀ index a,
      aug_rows draft !! index = Some a →
      a_Simulation_Values a
      = Qc_sum (column_total simulation_df
                  <$> filter (λ v, v ∈ sim_columns simulation_df)
                        (split ":" (text_cell (a_row a) "Vars"))).
Proof.
  intros HVars (Hrows & _ & _)%aggregate_inv; [|done]. rewrite Hrows. split.
  - rewrite <-list_fmap_compose. apply list_fmap_id.
  - intros index a Ha. rewrite list_lookup_fmap in Ha.
    destruct (map_rows mapping_df !! index) as [row|]; [|done].
    injection Ha as <-. cbn [aug_of a_Simulation_Values a_row].
    unfold subsector_total_emissions, vars_of.
    rewrite matching_columns_list. by destruct (filter _ _).
Qed.

(** On the example the first mapping row names the two columns [CO2_A] and
    [CO2_B], whose totals over the slice are 10 and 5. *)
Lemma aggregate_row_total_example :
  ("Vars" ∈ map_columns ex_mapping_df
   ∧ aggregate ex_slice ex_mapping_df
     = Ok (ex_draft, missing_of ex_slice (map_rows ex_mapping_df)))
  ∧ a_row <$> aug_rows ex_draft = map_rows ex_mapping_df
  ∧ ∃ a, aug_rows ex_draft !! 0%nat = Some a
         ∧ a_Simulation_Values a = Qc_sum [Qc_of_Z 10; Qc_of_Z 5].
Proof.
  assert (HVars : "Vars" ∈ map_columns ex_mapping_df) by compute_done.
  assert (Hagg : aggregate ex_slice ex_mapping_df
                 = Ok (ex_draft, missing_of ex_slice (map_rows ex_mapping_df)))
    by (by rewrite aggregate_ok).
  split; [exact (conj HVars Hagg)|].
  destruct (aggregate_row_total ex_slice ex_mapping_df ex_draft _ HVars Hagg)
    as [Hrows Htotal].
  split; [exact Hrows|]. eexists. split; [reflexivity|].
  rewrite (Htotal 0%nat _ eq_refl). by vm_compute.
Defined.

Lemma contribution_empty columns var :
  contribution {| sim_columns := columns; sim_rows := [] |} var = 0%Qc.
Proof. unfold contribution. by case_decide. Qed.

(** X9. On a slice without rows (no row of the simulation table has the
    reference year and entity) the Aggregator raises nothing: every mapping
    row gets [Simulation_Values = 0], whether its variables are columns of
    the slice or not. *)
Theorem aggregate_empty_slice (simulation_df : SimFrame)
    (mapping_df : MappingFrame) :
  sim_rows simulation_df = [] →
  "Vars" ∈ map_columns mapping_df →
  ∃ draft missing_variables,
    aggregate simulation_df mapping_df = Ok (draft, missing_variables)
    ∧ length (aug_rows draft) = length (map_rows mapping_df)
    ∧ Forall (λ a, a_Simulation_Values a = 0%Qc) (aug_rows draft).
Proof.
  intros Hempty HVars. eexists _, _. split; [by apply aggregate_ok|].
  cbn [aug_rows]. split; [by rewrite length_fmap|].
  apply Forall_fmap, Forall_true. intros row. cbn.
  rewrite subsector_total_emissions_contributions.
  destruct simulation_df as [columns rows]. cbn in Hempty. subst rows.
  rewrite (list_fmap_ext (contribution {| sim_columns := columns; sim_rows := [] |})
             (λ _, 0%Qc))
    by (intros; apply contribution_empty).
  apply Qc_sum_fmap_zero.
Qed.

Lemma aggregate_empty_slice_example :
  let empty := {| sim_columns := sim_columns ex_slice; sim_rows := [] |} in
  (sim_rows empty = [] ∧ "Vars" ∈ map_columns ex_mapping_df)
  ∧ ∃ draft missing_variables,
      aggregate empty ex_mapping_df = Ok (draft, missing_variables)
      ∧ a_Simulation_Values <$> aug_rows draft = [0; 0; 0; 0]%Qc.
Proof.
  intros empty.
  assert (HVars : "Vars" ∈ map_columns ex_mapping_df) by compute_done.
  split; [done|].
  destruct (aggregate_empty_slice empty ex_mapping_df eq_refl HVars)
    as (draft & missing_variables & Hagg & _ & _).
  exists draft, missing_variables. split; [done|].
  rewrite aggregate_ok in Hagg by done. injection Hagg as <- _.
  compute_done.
Defined.

(** X11. On a mapping table whose cells hold strings the Aggregator raises
    only for a missing [Vars] column, and only when it has a mapping row to
    read it from: the exception is
    [KeyError] on [Vars]; a mapping table without rows is aggregated to the
    empty table whatever its columns. *)
Theorem aggregate_raises (simulation_df : SimFrame)
    (mapping_df : MappingFrame) (e : error) :
  aggregate simulation_df mapping_df = Err e ↔
  ("Vars" ∉ map_columns mapping_df) ∧ map_rows mapping_df ≠ []
  ∧ e = KeyError "Vars".
Proof.
  destruct (decide ("Vars" ∈ map_columns mapping_df)) as [HVars|HVars].
  - rewrite aggregate_ok by done. split; [done|]. by intros [? _].
  - unfold aggregate. destruct (map_rows mapping_df) as [|row rows].
    + cbn. split; [done|]. by intros (_ & ? & _).
    + cbn [aggregate_rows]. rewrite require_column_err.
      2:{ rewrite elem_of_set_column_name. by intros [?|?]. }
      cbn. split.
      * by intros [= <-].
      * by intros (_ & _ & ->).
Qed.

Lemma print_missing_diagnostic `{PandasIO} missing_variables w :
  print_missing missing_variables w
  = ({| files := files w; stdout := stdout w ++ diagnostic missing_variables |},
     Ok tt).
Proof.
  unfold print_missing, diagnostic. case_decide; [done|].
  unfold mbind, IO_bind, print. rewrite print_all_run. cbn.
  by rewrite <-(assoc_L (++)).
Qed.

(** X12. What the Aggregator prints, given that iterating over a set
    yields each of its elements once: when every variable that the mapping
    names is a column of the slice, the one line that says so; else the
    heading and then the missing names, each once.  The missing names are
    those that a mapping row names and the slice does not have; the files
    are not touched. *)
Theorem calculate_ssp_emission_totals_prints `{PandasIO}
    (self : SectoralDiffReport) (simulation_df : SimFrame)
    (mapping_df : MappingFrame) (w : world) :
  "Vars" ∈ map_columns mapping_df →
  (∀ X : gset string, set_iter X ≡ₚ elements X) →
  ∃ draft lines,
    calculate_ssp_emission_totals self simulation_df mapping_df w
    = ({| files := files w; stdout := stdout w ++ lines |}, Ok draft)
    ∧ ((∀ row v, row ∈ map_rows mapping_df →
                 v ∈ split ":" (text_cell row "Vars") →
                 v ∈ sim_columns simulation_df) →
       lines = ["All variables from Vars are present in simulation_df."])
    ∧ ((∃ row v, row ∈ map_rows mapping_df
                 ∧ v ∈ split ":" (text_cell row "Vars")
                 ∧ v ∉ sim_columns simulation_df) →
       ∃ names,
         lines
         = "The following variables from Vars are not present in simulation_df:"
           :: names
         ∧ NoDup names
         ∧ ∀ v, v ∈ names ↔
                ∃ row, row ∈ map_rows mapping_df
                       ∧ v ∈ split ":" (text_cell row "Vars")
                       ∧ v ∉ sim_columns simulation_df).
Proof.
  intros HVars Hiter.
  exists {| aug_columns := set_column_name (map_columns mapping_df) "Simulation_Values";
            aug_rows := aug_of simulation_df <$> map_rows mapping_df |},
         (diagnostic (missing_of simulation_df (map_rows mapping_df))).
  split_and!.
  - unfold calculate_ssp_emission_totals, lift, mbind, IO_bind.
    rewrite aggregate_ok by done. by rewrite print_missing_diagnostic.
  - intros Hall. unfold diagnostic. rewrite decide_True; [done|].
    apply set_eq. intros v. rewrite elem_of_missing_of. split.
    + intros (row & Hrow & Hv & Habs). destruct Habs. by eapply Hall.
    + by intros ?%not_elem_of_empty.
  - intros (row & v & Hrow & Hv & Habs). unfold diagnostic.
    rewrite decide_False.
    2:{ intros Hempty.
        assert (v ∈ missing_of simulation_df (map_rows mapping_df)) as Hin
          by (apply elem_of_missing_of; eauto).
        rewrite Hempty in Hin. by apply not_elem_of_empty in Hin. }
    eexists. split; [done|]. split.
    + rewrite Hiter. apply NoDup_elements.
    + intros v'. rewrite Hiter, elem_of_elements. apply elem_of_missing_of.
Qed.

Lemma calculate_ssp_emission_totals_prints_example :
  ("Vars" ∈ map_columns ex_mapping_df
   ∧ ∀ X : gset string, @set_iter (ex_io elements) X ≡ₚ elements X)
  ∧ stdout (@calculate_ssp_emission_totals (ex_io elements) ex_self ex_slice
              ex_mapping_df (ex_world "mapping" "edgar")).1
    = ["The following variables from Vars are not present in simulation_df:";
       "co2_a"; "CH4"; "N2O"].
Proof.
  assert (HVars : "Vars" ∈ map_columns ex_mapping_df) by compute_done.
  assert (Hiter : ∀ X : gset string, @set_iter (ex_io elements) X ≡ₚ elements X)
    by done.
  split; [done|].
  destruct (@calculate_ssp_emission_totals_prints (ex_io elements) ex_self
              ex_slice ex_mapping_df (ex_world "mapping" "edgar") HVars Hiter)
    as (draft & lines & Hrun & _).
  vm_compute. reflexivity.
Defined.

(** ** Detailed Diff Builder, further *)

(** X13. The Detailed Diff Builder raises only for a missing grouping
    column, also on a table without rows: [KeyError] on [Subsector] when it
    is absent, else [KeyError] on [Edgar_Class] when that is absent.  No
    cell of the tables, as they are modelled, makes it raise. *)
Theorem generate_detailed_diff_report_raises (self : SectoralDiffReport)
    (draft : AugFrame) (edgar_df : list RefRow) (e : error) :
  generate_detailed_diff_report self draft edgar_df = Err e ↔
  (("Subsector" ∉ aug_columns draft) ∧ e = KeyError "Subsector")
  ∨ ("Subsector" ∈ aug_columns draft
     ∧ ("Edgar_Class" ∉ aug_columns draft)
     ∧ e = KeyError "Edgar_Class").
Proof.
  unfold generate_detailed_diff_report, detailed_diff_report_agg, require_column.
  repeat case_decide; cbn; split;
    first [ done
          | intros [= <-]; by auto
          | intros [[? ?]|(? & ? & ?)]; by subst ].
Qed.

Lemma generate_detailed_diff_report_inv self draft edgar_df report :
  generate_detailed_diff_report self draft edgar_df = Ok report →
  "Subsector" ∈ aug_columns draft
  ∧ "Edgar_Class" ∈ aug_columns draft
  ∧ report
    = detailed_row self
        <$> merge_left (groupby_sum pair_le subsector_class
                          a_Simulation_Values (aug_rows draft)) edgar_df.
Proof.
  unfold generate_detailed_diff_report, detailed_diff_report_agg, require_column.
  repeat case_decide; cbn; [|done..]. by intros [= <-].
Qed.

Lemma matches_singleton_Some edgar_df l e :
  matches edgar_df l.1.2 = [e] → left_matches edgar_df l = [(l, Some e)].
Proof. unfold left_matches. by intros ->. Qed.

(** X15. A pair of the mapping whose class has exactly one row in the
    reference table has exactly one row in the detailed report: it carries
    the summed [Simulation_Values] of the pair, the reference year, and the
    [Edgar_Values] of that reference row. *)
Theorem detailed_report_matched_row (self : SectoralDiffReport)
    (draft : AugFrame) (edgar_df : list RefRow)
    (report : list DetailedDiffRow) (p : string * string) (e : RefRow) :
  generate_detailed_diff_report self draft edgar_df = Ok report →
  p ∈ subsector_class <$> aug_rows draft →
  matches edgar_df p.2 = [e] →
  let total :=
    group_total subsector_class a_Simulation_Values (aug_rows draft) p in
  rows_for p report
  = [ {| d_Year := ref_year self;
         d_Subsector := p.1;
         d_Edgar_Class := p.2;
         d_Simulation_Values := total;
         d_Edgar_Values := r_Edgar_Values e;
         d_diff := relative_diff (Fin total) (of_cell (r_Edgar_Values e)) |} ].
Proof.
  intros (_ & _ & ->)%generate_detailed_diff_report_inv Hp He total.
  rewrite rows_for_detailed, decide_True by done.
  subst total.
  by rewrite (matches_singleton_Some edgar_df
                (p, group_total subsector_class a_Simulation_Values
                      (aug_rows draft) p) e He).

Qed.

Lemma detailed_report_matched_row_example :
  ∃ report,
    generate_detailed_diff_report ex_self ex_draft ex_ref = Ok report
    ∧ ("Energy", "Energy:CO2") ∈ subsector_class <$> aug_rows ex_draft
    ∧ matches ex_ref "Energy:CO2" = [ {| r_Edgar_Class := "Energy:CO2"; r_Year := 2015; r_Edgar_Values := num 20 |} ]
    ∧ d_Edgar_Values <$> rows_for ("Energy", "Energy:CO2") report = [num 20].
Proof.
  assert (HS : "Subsector" ∈ aug_columns ex_draft) by compute_done.
  assert (HE : "Edgar_Class" ∈ aug_columns ex_draft) by compute_done.
  assert (Hgen := generate_detailed_diff_report_ok ex_self ex_draft ex_ref HS HE).
  assert (Hp : ("Energy", "Energy:CO2") ∈ subsector_class <$> aug_rows ex_draft)
    by compute_done.
  assert (He : matches ex_ref ("Energy", "Energy:CO2").2 = [ {| r_Edgar_Class := "Energy:CO2"; r_Year := 2015; r_Edgar_Values := num 20 |} ])
    by reflexivity.
  eexists. split; [exact Hgen|]. split; [done|]. split; [done|].
  by rewrite (detailed_report_matched_row ex_self ex_draft ex_ref _ _ _ Hgen Hp He).
Defined.

Lemma left_matches_fmap_ref (f : RefRow → RefRow) self edgar_df l :
  (∀ e, r_Edgar_Class (f e) = r_Edgar_Class e) →
  (∀ e, r_Edgar_Values (f e) = r_Edgar_Values e) →
  detailed_row self <$> left_matches (f <$> edgar_df) l
  = detailed_row self <$> left_matches edgar_df l.
Proof.
  intros Hclass Hvalue. unfold left_matches, matches.
  rewrite filter_fmap.
  rewrite (list_filter_iff _ (λ e, r_Edgar_Class e = l.1.2))
    by (intros e; by rewrite Hclass).
  destruct (filter _ edgar_df) as [|e ms]; [done|].
  rewrite fmap_cons.
  change (detailed_row self <$> ((λ e', (l, Some e')) <$> (f <$> (e :: ms)))
          = detailed_row self <$> ((λ e', (l, Some e')) <$> (e :: ms))).
  rewrite <-!list_fmap_compose. apply list_fmap_ext.
  intros _ e' _. unfold detailed_row. cbn. by rewrite Hvalue.
Qed.

(** X16. The detailed report takes nothing from the reference table but a
    value per class: whatever the years in its [Year] column, the report is
    the same, and every row of the report carries the reference year of the
    run. *)
Theorem detailed_report_ignores_reference_year (self : SectoralDiffReport)
    (draft : AugFrame) (edgar_df : list RefRow) (year : RefRow → Z) :
  generate_detailed_diff_report self draft
    ((λ e, {| r_Edgar_Class := r_Edgar_Class e; r_Year := year e;
              r_Edgar_Values := r_Edgar_Values e |}) <$> edgar_df)
  = generate_detailed_diff_report self draft edgar_df
  ∧ ∀ report, generate_detailed_diff_report self draft edgar_df = Ok report →
              Forall (λ d, d_Year d = ref_year self) report.
Proof.
  split.
  - unfold generate_detailed_diff_report.
    destruct (detailed_diff_report_agg draft) as [agg|]; [|done].
    cbn [mbind result_bind]. f_equal. unfold merge_left.
    induction agg as [|l agg IH]; [done|].
    rewrite !bind_cons, !fmap_app, IH. f_equal.
    by apply left_matches_fmap_ref.
  - intros report (_ & _ & ->)%generate_detailed_diff_report_inv.
    by apply Forall_fmap, Forall_true.
Qed.

Lemma fmap_nil_iff {A B} (f : A → B) (l : list A) : f <$> l = [] ↔ l = [].
Proof. split; [apply fmap_nil_inv|by intros ->]. Qed.

Lemma group_keys_nil {A K} `{EqDecision K} (R : relation K)
    `{!RelDecision R} (key : A → K) (rows : list A) :
  group_keys R key rows = [] ↔ rows = [].
Proof.
  split; [|by intros ->]. intros Hnil.
  destruct rows as [|r rows]; [done|].
  assert (key r ∈ group_keys R key (r :: rows)) as Hin
    by (apply elem_of_group_keys; left).
  rewrite Hnil in Hin. by apply elem_of_nil in Hin.
Qed.

(** X17. With an empty reference table the Detailed Diff Builder raises
    nothing: the detailed report has one row for each pair of the mapping,
    none with a reference value and all with the [diff] not-a-number.  When
    the table is empty because the file has no row of the country, its
    column [Edgar_Values] is a float64 column, and every row of the subsector
    report has the reference total 0 and an infinite or not-a-number [diff].
    When the file has no data row at all, it is a column of objects, and the
    Subsector Diff Builder raises [ZeroDivisionError] unless the mapping has
    no row. *)
Theorem reports_without_reference (self : SectoralDiffReport)
    (draft : AugFrame) :
  "Subsector" ∈ aug_columns draft →
  "Edgar_Class" ∈ aug_columns draft →
  ∃ detailed,
    generate_detailed_diff_report self draft [] = Ok detailed
    ∧ (λ d, (d_Subsector d, d_Edgar_Class d)) <$> detailed
      ≡ₚ remove_dups (subsector_class <$> aug_rows draft)
    ∧ Forall (λ d, d_Edgar_Values d = None ∧ d_diff d = NaN) detailed
    ∧ (∃ report,
         generate_subsector_diff_report self float64_dtype detailed = Ok report
         ∧ Forall (λ s, s_Edgar_Values s = 0%Qc ∧ is_undefined (s_diff s))
                  report)
    ∧ (aug_rows draft ≠ [] →
       generate_subsector_diff_report self object_dtype detailed
       = Err ZeroDivisionError)
    ∧ (aug_rows draft = [] →
       generate_subsector_diff_report self object_dtype detailed = Ok []).
Proof.
  intros HS HE.
  set (agg := groupby_sum pair_le subsector_class a_Simulation_Values
                (aug_rows draft)).
  set (unmatched := λ l : string * string * Qc,
                      detailed_row self (l, @None RefRow)).
  assert (Hmerge : merge_left agg [] = (λ l, (l, None)) <$> agg).
  { unfold merge_left. induction agg as [|l agg' IH]; [done|].
    by rewrite bind_cons, fmap_cons, IH. }
  exists (unmatched <$> agg). split.
  { rewrite generate_detailed_diff_report_ok by done. fold agg.
    by rewrite Hmerge, <-list_fmap_compose. }
  assert (Hall : Forall (λ d, d_Edgar_Values d = None ∧ d_diff d = NaN)
                   (unmatched <$> agg)).
  { by apply Forall_fmap, Forall_true. }
  assert (Hzero : Forall (λ s, s_Edgar_Values s = 0%Qc ∧ is_undefined (s_diff s))
                    (subsector_row self (unmatched <$> agg)
                     <$> group_keys string_le d_Subsector (unmatched <$> agg))).
  { apply Forall_fmap, Forall_true. intros s. unfold compose.
    cbn [subsector_row s_Edgar_Values s_diff].
    assert (Hzero : nansum (d_Edgar_Values
                              <$> group d_Subsector (unmatched <$> agg) s)
                    = 0%Qc).
    { unfold nansum, group. rewrite <-list_fmap_compose.
      rewrite (list_fmap_ext _ (λ _, 0%Qc)); [apply Qc_sum_fmap_zero|].
      intros i d Hd%list_elem_of_lookup_2.
      by apply list_elem_of_filter in Hd as [_ (l & -> & _)%list_elem_of_fmap]. }
    rewrite Hzero. split; [done|]. apply relative_diff_zero_ref. }
  assert (Hagg : agg = [] ↔ aug_rows draft = []).
  { unfold agg, groupby_sum. rewrite fmap_nil_iff. apply group_keys_nil. }
  split_and!.
  - rewrite <-list_fmap_compose.
    rewrite (list_fmap_ext _ fst) by (by intros i [[s c] v] _).
    unfold agg. rewrite groupby_sum_keys. apply group_keys_perm.
  - exact Hall.
  - eexists. split; [apply generate_subsector_diff_report_float64|done].
  - intros Hrows. rewrite generate_subsector_diff_report_object. cbn zeta.
    rewrite decide_True; [done|].
    destruct (subsector_row self (unmatched <$> agg)
              <$> group_keys string_le d_Subsector (unmatched <$> agg))
      as [|s report] eqn:Hreport.
    + apply fmap_nil_iff, group_keys_nil, fmap_nil_iff in Hreport.
      by apply Hagg in Hreport.
    + apply Exists_cons_hd. by apply list.Forall_cons in Hzero as [[? _] _].
  - intros Hrows. apply Hagg in Hrows. rewrite Hrows.
    by vm_compute.
Qed.

Lemma reports_without_reference_example :
  ("Subsector" ∈ aug_columns ex_draft ∧ "Edgar_Class" ∈ aug_columns ex_draft)
  ∧ ∃ detailed report,
      generate_detailed_diff_report ex_self ex_draft [] = Ok detailed
      ∧ d_diff <$> detailed = [NaN; NaN]
      ∧ generate_subsector_diff_report ex_self float64_dtype detailed = Ok report
      ∧ s_diff <$> report = [PInf]
      ∧ generate_subsector_diff_report ex_self object_dtype detailed
        = Err ZeroDivisionError.
Proof.
  assert (HS : "Subsector" ∈ aug_columns ex_draft) by compute_done.
  assert (HE : "Edgar_Class" ∈ aug_columns ex_draft) by compute_done.
  split; [done|].
  destruct (reports_without_reference ex_self ex_draft HS HE)
    as (detailed & Hgen & _ & _ & _ & Hobject & _).
  exists detailed. eexists.
  split; [done|]. split_and!.
  - rewrite generate_detailed_diff_report_ok in Hgen by done.
    injection Hgen as <-. compute_done.
  - apply generate_subsector_diff_report_float64.
  - rewrite generate_detailed_diff_report_ok in Hgen by done.
    injection Hgen as <-. compute_done.
  - apply Hobject. compute_done.
Defined.

(** ** Subsector Diff Builder, further *)

Global Instance string_le_total : Total string_le.
Proof.
  intros a b. unfold string_le.
  destruct (String.leb_total a b) as [->| ->]; [by left|by right].
Qed.

(** X18. On a float64 column the Subsector Diff Builder returns its
    report, and on a column of objects it returns this report or raises.
    The report has one row for each subsector of the detailed report and no
    other row, in ascending order of the subsector names, each with the
    reference year of the run; an empty detailed report gives an empty
    subsector report. *)
Theorem subsector_report_rows (self : SectoralDiffReport)
    (detailed : list DetailedDiffRow) :
  ∃ report,
    generate_subsector_diff_report self float64_dtype detailed = Ok report
    ∧ (∀ dt report',
         generate_subsector_diff_report self dt detailed = Ok report' →
         report' = report)
    ∧ NoDup (s_Subsector <$> report)
    ∧ (∀ s, s ∈ s_Subsector <$> report ↔ s ∈ d_Subsector <$> detailed)
    ∧ Sorted string_le (s_Subsector <$> report)
    ∧ Forall (λ s, s_Year s = ref_year self) report
    ∧ (report = [] ↔ detailed = []).
Proof.
  eexists. split; [apply generate_subsector_diff_report_float64|].
  assert (Hsub : s_Subsector
                 <$> (subsector_row self detailed
                      <$> group_keys string_le d_Subsector detailed)
                 = group_keys string_le d_Subsector detailed).
  { rewrite <-list_fmap_compose. apply list_fmap_id. }
  rewrite Hsub. split_and!.
  - by intros dt report' ->%generate_subsector_diff_report_inv.
  - apply NoDup_group_keys.
  - intros s. apply elem_of_group_keys.
  - apply Sorted_merge_sort. apply _.
  - by apply Forall_fmap, Forall_true.
  - rewrite fmap_nil_iff. apply group_keys_nil.
Qed.

(** ** Orchestrator, further *)

Lemma generate_diff_reports_stdout `{PandasIO} self simulation_df w :
  ∃ lines, stdout (generate_diff_reports self simulation_df w).1
           = (stdout w ++ lines)%list.
Proof.
  unfold generate_diff_reports, load_mapping_table, edgar_data_etl,
    calculate_ssp_emission_totals, read_csv, lift.
  unfold mbind, IO_bind, result_bind, mret, IO_ret. cbn [fst snd].
  destruct (parse_file parse_mapping _ _) as [mapping_df|];
    [|exists []; by rewrite app_nil_r].
  destruct (load_simulation_output_data _ _) as [slice|];
    [|exists []; by rewrite app_nil_r].
  destruct (parse_file parse_edgar _ _) as [edgar_df|];
    [|exists []; by rewrite app_nil_r].
  destruct (edgar_long _ _) as [edgar|]; [|exists []; by rewrite app_nil_r].
  destruct (aggregate _ _) as [[draft missing_variables]|];
    [|exists []; by rewrite app_nil_r].
  destruct (print_missing_run missing_variables w) as [lines ->].
  exists lines. destruct (generate_detailed_diff_report _ _ _); [|done].
  by destruct (generate_subsector_diff_report _ _ _).
Qed.

Lemma detailed_subsector_paths_apart self :
  detailed_report_path self ≠ subsector_report_path self.
Proof.
  unfold detailed_report_path, subsector_report_path.
  intros Heq. apply os_path_join_inj in Heq;
    solve [discriminate Heq | intros s Hs; discriminate Hs].
Qed.

(** X21. What a run leaves behind.  A run that returns has written the
    rendering of the returned detailed report and of the returned subsector
    report under their two names, which are never the same name, and the
    returned subsector report is what the Subsector Diff Builder returns
    for the returned detailed report; every other file is as it was.  A run that raises has written
    no file.  In both cases what was printed before is still there, followed
    by what the run printed. *)
Theorem generate_diff_reports_effects `{PandasIO} (self : SectoralDiffReport)
    (simulation_df : SimFrame) (w : world) :
  let run := generate_diff_reports self simulation_df w in
  match run.2 with
  | Ok (detailed, subsector) =>
      (∃ dt, generate_subsector_diff_report self dt detailed = Ok subsector)
      ∧ files run.1 !! detailed_report_path self
        = Some (render_detailed detailed)
      ∧ files run.1 !! subsector_report_path self
        = Some (render_subsector subsector)
      ∧ (∀ path, path ≠ detailed_report_path self →
                 path ≠ subsector_report_path self →
                 files run.1 !! path = files w !! path)
  | Err _ => files run.1 = files w
  end
  ∧ ∃ lines, stdout run.1 = (stdout w ++ lines)%list.
Proof.
  intros run. split; [|apply generate_diff_reports_stdout].
  pose proof (generate_diff_reports_files self simulation_df w) as Hfiles.
  pose proof (generate_diff_reports_result self simulation_df w) as Hres.
  fold run in Hfiles, Hres.
  destruct run.2 as [[detailed subsector]|e]; [|done].
  pose proof (detailed_subsector_paths_apart self) as Hapart.
  split_and!.
  - symmetry in Hres. unfold reports_of in Hres.
    destruct (parse_file parse_mapping _ _) as [mapping_df|]; [|done].
    destruct (load_simulation_output_data _ _) as [slice|]; [|done].
    cbn in Hres.
    destruct (parse_file parse_edgar _ _ ≫= _) as [edgar|]; [|done].
    cbn in Hres.
    destruct (aggregate _ _) as [[draft missing_variables]|]; [|done].
    cbn in Hres.
    destruct (generate_detailed_diff_report _ _ _) as [detailed'|]; [|done].
    cbn in Hres.
    destruct (generate_subsector_diff_report _ _ detailed')
      as [subsector'|] eqn:Hsub; [|done].
    cbn in Hres. injection Hres as <- <-. by eexists.
  - rewrite Hfiles. rewrite lookup_insert_ne by done.
    by rewrite lookup_insert_eq.
  - rewrite Hfiles. by rewrite lookup_insert_eq.
  - intros path Hd Hs. rewrite Hfiles. by rewrite !lookup_insert_ne.
Qed.

(** X22. The input files of a run set up by [__init__] are never written
    over: the four file names (mapping table, reference data, detailed
    report, subsector report) are pairwise different whatever the directory,
    and after a run, returned or raised, the mapping table and the reference
    data hold what they held. *)
Theorem generate_diff_reports_keeps_inputs `{PandasIO}
    (misc iso : string) (iy ry rid : Z) (simulation_df : SimFrame) (w : world) :
  let self := init misc iso iy ry rid in
  let run := generate_diff_reports self simulation_df w in
  NoDup [mapping_table_path self; edga_file_path self;
         detailed_report_path self; subsector_report_path self]
  ∧ files run.1 !! mapping_table_path self = files w !! mapping_table_path self
  ∧ files run.1 !! edga_file_path self = files w !! edga_file_path self.
Proof.
  intros self run.
  destruct (report_paths_apart misc iso iy ry rid) as (Hmd & Hms & Hed & Hes).
  fold self in Hmd, Hms, Hed, Hes.
  pose proof (detailed_subsector_paths_apart self) as Hds.
  assert (Hme : mapping_table_path self ≠ edga_file_path self).
  { unfold self, init. cbn [mapping_table_path edga_file_path].
    intros Heq. apply os_path_join_inj in Heq;
      solve [discriminate Heq | intros s Hs; discriminate Hs]. }
  split_and!.
  - repeat (apply NoDup_cons_2;
              [rewrite ?elem_of_cons, elem_of_nil; tauto|]).
    apply NoDup_nil_2.
  - unfold run. rewrite generate_diff_reports_files. fold run.
    destruct run.2 as [[d s]|e]; [|done]. by rewrite !lookup_insert_ne.
  - unfold run. rewrite generate_diff_reports_files. fold run.
    destruct run.2 as [[d s]|e]; [|done]. by rewrite !lookup_insert_ne.
Qed.

(** X23. The order of the checks of a run.  A missing mapping table is
    the first thing reported, whatever the simulation frame and the
    reference file; with a mapping table that parses, a simulation frame
    without a [time_period] column is reported before the reference file is
    looked at, so also when that file is missing.  In both cases the run
    ends with nothing written and nothing printed. *)
Theorem generate_diff_reports_first_error `{PandasIO}
    (self : SectoralDiffReport) (simulation_df : SimFrame) (w : world) :
  (files w !! mapping_table_path self = None →
   generate_diff_reports self simulation_df w
   = (w, Err (FileNotFoundError (mapping_table_path self))))
  ∧ (is_ok (load_mapping_table self w).2 →
     ("time_period" ∉ sim_columns simulation_df) →
     generate_diff_reports self simulation_df w
     = (w, Err (KeyError "time_period"))).
Proof.
  split.
  - intros Hnone.
    unfold generate_diff_reports, load_mapping_table, read_csv, lift.
    unfold mbind, IO_bind. cbn [fst snd]. by rewrite Hnone.
  - intros Hok Hcol.
    unfold generate_diff_reports, load_mapping_table, read_csv, lift in *.
    unfold mbind, IO_bind. cbn [fst snd] in *.
    destruct (parse_file parse_mapping _ _) as [mapping_df|]; [|done].
    unfold load_simulation_output_data.
    by rewrite (require_column_err _ "time_period").
Qed.

Lemma generate_diff_reports_first_error_example :
  let no_time := {| sim_columns := ["primary_id"]; sim_rows := [] |} in
  let w := {| files := {[ mapping_table_path ex_self := "mapping" ]};
              stdout := [] |} in
  let w0 := {| files := ∅; stdout := [] |} in
  @generate_diff_reports (ex_io elements) ex_self ex_simulation_df w0
  = (w0, Err (FileNotFoundError "misc/mapping.csv"))
  ∧ @generate_diff_reports (ex_io elements) ex_self no_time w
    = (w, Err (KeyError "time_period")).
Proof.
  intros no_time w w0. split.
  - apply (proj1 (@generate_diff_reports_first_error (ex_io elements)
                    ex_self ex_simulation_df w0)).
    reflexivity.
  - apply (proj2 (@generate_diff_reports_first_error (ex_io elements)
                    ex_self no_time w)).
    + vm_compute. exact I.
    + compute_done.
Defined.
